(** * SQL-practice-shop-db: the mapped classes and the seeding utility

    Part I embeds the declarative models of [src/main_app/models/*.py] as
    data (one [model] per mapped class, one [column] per [mapped_column],
    one [relationship] per [relationship(...)]) together with the store
    those declarations are interpreted by: typed rows, INSERT with the
    declared constraints, and the unit-of-work delete with its cascades.

    Part II embeds [FakeData] of
    [src/main_app/models/fake_data_gen/fake_data.py] over an explicit world
    (entropy of [random], output of [Faker], clock, database, session). *)

From Stdlib Require Import ZArith Lia List Bool.
From Stdlib Require Import DecimalString.
From stdpp Require Import gmap strings list fin_maps.

Open Scope Z_scope.

(** ** Part I — the models *)

Module Schema.

(** Column types as the models name them.  [String_ None] is the
    unbounded string of a bare [Mapped[str]]; [DateTime tz] carries the
    [timezone=] flag; [Enum_] lists the member names of a non-native
    enum. *)
Inductive sqltype : Type :=
| Integer
| String_ (len : option nat)
| Text
| Numeric (precision scale : nat)
| Boolean
| DateTime (tz : bool)
| Enum_ (members : list string).

(** Values held by a column.  A [Numeric(p, s)] value is the integer
    number of 10^-s units (cents for [Numeric(10, 2)]); a datetime is a
    number of seconds. *)
Inductive value : Type :=
| VNull
| VInt (z : Z)
| VStr (s : string)
| VBool (b : bool)
| VNum (units : Z)
| VTime (t : Z).

#[global] Instance value_eq_dec : EqDecision value.
Proof. solve_decision. Defined.

(** What fills a column the INSERT leaves out. *)
Inductive dflt : Type :=
| DValue (v : value)
| DNow.

(** Keyword arguments of [mapped_column]. *)
Inductive colopt : Type :=
| PrimaryKey
| Autoincrement
| Nullable (b : bool)
| Unique
| ForeignKey (table col : string)
| Default (d : dflt)
| ServerDefault (d : dflt)
| OnUpdate (d : dflt).

(** [name: Mapped[T] = mapped_column(type, opts...)]; [col_optional] is
    the [| None] of the annotation. *)
Record column : Type := mapped_column {
  col_name : string;
  col_optional : bool;
  col_type : sqltype;
  col_opts : list colopt
}.

Inductive cascade_opt : Type :=
| SaveUpdate | Merge | All | Delete | DeleteOrphan.

(** [attr = relationship("Target", secondary=..., cascade=...,
    remote_side=...)]; the target is named by its table. *)
Record relationship : Type := mk_relationship {
  rel_attr : string;
  rel_target : string;
  rel_secondary : option string;
  rel_remote_side : bool;
  rel_cascade : list cascade_opt
}.

Inductive table_arg : Type :=
| UniqueConstraint (cols : list string) (name : string)
| CheckNotEqual (col : string) (v : value) (name : string)
| Index (name : string) (cols : list string).

Record model : Type := mk_model {
  class_name : string;
  tablename : string;
  columns : list column;
  relationships : list relationship;
  table_args : list table_arg
}.

(** SQLAlchemy's default cascade and the two the models spell out. *)
Definition cascade_default : list cascade_opt := [SaveUpdate; Merge].
Definition cascade_all_delete_orphan : list cascade_opt := [All; DeleteOrphan].

Definition rel (attr target : string) (cascade : list cascade_opt) : relationship :=
  mk_relationship attr target None false cascade.

Definition id_column : column :=
  mapped_column "id" false Integer [PrimaryKey; Autoincrement].

Definition utc_now_default (name : string) : column :=
  mapped_column name false (DateTime false) [Default DNow].

Definition utc_now_default_onupdate (name : string) : column :=
  mapped_column name false (DateTime false) [Default DNow; OnUpdate DNow].

(** user.py *)
Definition UserStatus : list string := ["active"; "banned"; "deleted"].

Definition User : model := {|
  class_name := "User";
  tablename := "users";
  columns := [
    id_column;
    mapped_column "email" false (String_ (Some 255%nat)) [Unique; Nullable false];
    mapped_column "phone" true (String_ (Some 32%nat)) [Unique; Nullable true];
    mapped_column "password_hash" false (String_ (Some 255%nat)) [Nullable false];
    mapped_column "password_algo" false (String_ (Some 50%nat)) [Nullable true];
    mapped_column "password_changed_at" true (DateTime true) [];
    mapped_column "preferred_locale" false (String_ (Some 10%nat))
      [ServerDefault (DValue (VStr "en")); Nullable false];
    mapped_column "timezone" false (String_ (Some 50%nat))
      [ServerDefault (DValue (VStr "UTC")); Nullable false];
    mapped_column "default_currency" false (String_ (Some 3%nat))
      [ServerDefault (DValue (VStr "USD")); Nullable false];
    mapped_column "marketing_opt_in" false Boolean
      [ServerDefault (DValue (VBool false)); Nullable false];
    mapped_column "terms_accepted_at" true (DateTime true) [];
    mapped_column "status" false (Enum_ UserStatus)
      [ServerDefault (DValue (VStr "active")); Nullable false];
    mapped_column "failed_login_attempts" false Integer
      [ServerDefault (DValue (VInt 0)); Nullable false];
    mapped_column "lockout_until" true (DateTime true) [];
    mapped_column "created_at" false (DateTime true) [ServerDefault DNow; Nullable false];
    mapped_column "updated_at" false (DateTime true)
      [ServerDefault DNow; OnUpdate DNow; Nullable false];
    mapped_column "last_login_at" true (DateTime true) [];
    mapped_column "gdpr_erasure_requested_at" true (DateTime true) []
  ];
  relationships := [
    rel "orders" "orders" cascade_all_delete_orphan;
    rel "reviews" "reviews" cascade_all_delete_orphan;
    rel "payments" "payments" cascade_all_delete_orphan;
    rel "wishlist" "wishlists" cascade_all_delete_orphan;
    rel "cart_items" "shopping_cart" cascade_all_delete_orphan;
    rel "addresses" "user_address" cascade_all_delete_orphan
  ];
  table_args := [
    CheckNotEqual "email" (VStr "") "ck_user_account_email_non_empty";
    Index "ix_user_account_created_at" ["created_at"];
    Index "ix_user_account_last_login_at" ["last_login_at"];
    Index "ix_user_account_status_created_at" ["status"; "created_at"]
  ]
|}.

(** user_address.py *)
Definition UserAddress : model := {|
  class_name := "UserAddress";
  tablename := "user_address";
  columns := [
    id_column;
    mapped_column "user_id" false Integer [ForeignKey "users" "id"; Nullable false];
    mapped_column "line1" false (String_ (Some 255%nat)) [Nullable false];
    mapped_column "line2" true (String_ (Some 255%nat)) [];
    mapped_column "city" false (String_ (Some 100%nat)) [Nullable false];
    mapped_column "state" true (String_ (Some 100%nat)) [];
    mapped_column "postal_code" false (String_ (Some 20%nat)) [Nullable false];
    mapped_column "country" false (String_ (Some 2%nat)) [Nullable false];
    mapped_column "is_default_shipping" false Boolean
      [Default (DValue (VBool false)); Nullable false];
    mapped_column "is_default_billing" false Boolean
      [Default (DValue (VBool false)); Nullable false];
    utc_now_default "created_at";
    utc_now_default_onupdate "updated_at"
  ];
  relationships := [
    rel "user" "users" cascade_default;
    rel "orders" "orders" cascade_default
  ];
  table_args := []
|}.

(** category.py; [parent] has [remote_side=[id]] and its [backref]
    creates [children]. *)
Definition Category : model := {|
  class_name := "Category";
  tablename := "categories";
  columns := [
    id_column;
    mapped_column "parent_id" true Integer [ForeignKey "categories" "id"; Nullable true];
    mapped_column "name" false (String_ (Some 255%nat)) [Nullable false];
    mapped_column "slug" false (String_ (Some 255%nat)) [Unique; Nullable false];
    mapped_column "description" true (String_ (Some 500%nat)) [];
    mapped_column "is_active" false Boolean [Default (DValue (VBool true)); Nullable false];
    utc_now_default "created_at";
    utc_now_default_onupdate "updated_at"
  ];
  relationships := [
    mk_relationship "parent" "categories" None true cascade_default;
    mk_relationship "children" "categories" None false cascade_default;
    mk_relationship "products" "products" (Some "products_categories") false cascade_default
  ];
  table_args := []
|}.

(** product.py *)
Definition Product : model := {|
  class_name := "Product";
  tablename := "products";
  columns := [
    id_column;
    mapped_column "sku" false (String_ (Some 50%nat)) [Unique; Nullable false];
    mapped_column "name" false (String_ (Some 255%nat)) [Nullable false];
    mapped_column "description" true Text [];
    mapped_column "brand" true (String_ (Some 100%nat)) [];
    mapped_column "price" false (Numeric 10 2) [Nullable false];
    mapped_column "discount_price" true (Numeric 10 2) [];
    mapped_column "stock" false Integer [Nullable false; Default (DValue (VInt 0))];
    mapped_column "is_active" false Boolean [Nullable false; Default (DValue (VBool true))];
    mapped_column "slug" false (String_ (Some 255%nat)) [Unique; Nullable false];
    mapped_column "meta_title" true (String_ (Some 255%nat)) [];
    mapped_column "meta_description" true (String_ (Some 500%nat)) [];
    mapped_column "created_at" false (DateTime true) [Default DNow];
    mapped_column "updated_at" false (DateTime true) [Default DNow; OnUpdate DNow]
  ];
  relationships := [
    rel "order_items" "order_items" cascade_all_delete_orphan;
    rel "reviews" "reviews" cascade_all_delete_orphan;
    rel "wishlists" "wishlist_items" cascade_default;
    mk_relationship "categories" "categories" (Some "products_categories") false cascade_default
  ];
  table_args := []
|}.

(** m2m_products_categories.py: no [id]; both foreign keys are primary
    key columns. *)
Definition ProductCategory : model := {|
  class_name := "ProductCategory";
  tablename := "products_categories";
  columns := [
    mapped_column "product_id" false Integer
      [ForeignKey "products" "id"; Nullable false; PrimaryKey];
    mapped_column "category_id" false Integer
      [ForeignKey "categories" "id"; Nullable false; PrimaryKey]
  ];
  relationships := [];
  table_args := []
|}.

(** order.py *)
Definition Order : model := {|
  class_name := "Order";
  tablename := "orders";
  columns := [
    id_column;
    mapped_column "user_id" false Integer [ForeignKey "users" "id"; Nullable false];
    mapped_column "shipping_address_id" true Integer
      [ForeignKey "user_address" "id"; Nullable true];
    mapped_column "order_number" false (String_ (Some 50%nat)) [Unique; Nullable false];
    mapped_column "status" false (String_ (Some 50%nat))
      [Default (DValue (VStr "pending")); Nullable false];
    mapped_column "total_amount" false (Numeric 10 2) [Nullable false];
    mapped_column "is_paid" false Boolean [Default (DValue (VBool false)); Nullable false];
    utc_now_default "created_at";
    utc_now_default_onupdate "updated_at"
  ];
  relationships := [
    rel "user" "users" cascade_default;
    rel "shipping_address" "user_address" cascade_default;
    rel "items" "order_items" cascade_all_delete_orphan;
    rel "payments" "payments" cascade_all_delete_orphan
  ];
  table_args := []
|}.

(** order_items.py *)
Definition OrderItem : model := {|
  class_name := "OrderItem";
  tablename := "order_items";
  columns := [
    id_column;
    mapped_column "order_id" false Integer [ForeignKey "orders" "id"; Nullable false];
    mapped_column "product_id" false Integer [ForeignKey "products" "id"; Nullable false];
    mapped_column "quantity" false Integer [Nullable false; Default (DValue (VInt 1))];
    mapped_column "unit_price" false (Numeric 10 2) [Nullable false];
    utc_now_default "created_at";
    utc_now_default_onupdate "updated_at"
  ];
  relationships := [
    rel "order" "orders" cascade_default;
    rel "product" "products" cascade_default
  ];
  table_args := []
|}.

(** payment.py *)
Definition Payment : model := {|
  class_name := "Payment";
  tablename := "payments";
  columns := [
    id_column;
    mapped_column "order_id" false Integer [ForeignKey "orders" "id"; Nullable false];
    mapped_column "user_id" false Integer [ForeignKey "users" "id"; Nullable false];
    mapped_column "payment_method" false (String_ (Some 50%nat)) [Nullable false];
    mapped_column "amount" false (Numeric 10 2) [Nullable false];
    mapped_column "status" false (String_ (Some 50%nat))
      [Default (DValue (VStr "pending")); Nullable false];
    mapped_column "transaction_id" true (String_ (Some 100%nat)) [Unique];
    utc_now_default "created_at";
    utc_now_default_onupdate "updated_at"
  ];
  relationships := [
    rel "order" "orders" cascade_default;
    rel "user" "users" cascade_default
  ];
  table_args := []
|}.

(** review.py; the [# 1-5] of [rating] is a comment, the column carries
    no check. *)
Definition Review : model := {|
  class_name := "Review";
  tablename := "reviews";
  columns := [
    id_column;
    mapped_column "user_id" false Integer [ForeignKey "users" "id"; Nullable false];
    mapped_column "product_id" false Integer [ForeignKey "products" "id"; Nullable false];
    mapped_column "rating" false Integer [Nullable false];
    mapped_column "title" true (String_ (Some 255%nat)) [];
    mapped_column "content" true Text [];
    mapped_column "is_approved" false Boolean
      [Default (DValue (VBool false)); Nullable false];
    utc_now_default "created_at";
    utc_now_default_onupdate "updated_at"
  ];
  relationships := [
    rel "user" "users" cascade_default;
    rel "product" "products" cascade_default
  ];
  table_args := []
|}.

(** shopping_cart.py *)
Definition ShoppingCart : model := {|
  class_name := "ShoppingCart";
  tablename := "shopping_cart";
  columns := [
    id_column;
    mapped_column "user_id" false Integer [ForeignKey "users" "id"; Nullable false];
    mapped_column "product_id" false Integer [ForeignKey "products" "id"; Nullable false];
    mapped_column "quantity" false Integer [Default (DValue (VInt 1)); Nullable false];
    utc_now_default "added_at"
  ];
  relationships := [
    rel "user" "users" cascade_default;
    rel "product" "products" cascade_default
  ];
  table_args := [
    UniqueConstraint ["user_id"; "product_id"] "uix_user_product_cart"
  ]
|}.

(** wishlist.py *)
Definition Wishlist : model := {|
  class_name := "Wishlist";
  tablename := "wishlists";
  columns := [
    id_column;
    mapped_column "user_id" false Integer [ForeignKey "users" "id"; Nullable false];
    mapped_column "name" false (String_ None) [];
    mapped_column "created_at" false (DateTime true) [ServerDefault DNow; Nullable false];
    mapped_column "updated_at" false (DateTime true)
      [ServerDefault DNow; OnUpdate DNow; Nullable false]
  ];
  relationships := [
    rel "items" "wishlist_items" cascade_all_delete_orphan;
    rel "user" "users" cascade_default
  ];
  table_args := []
|}.

(** m2m_wishlist_items.py *)
Definition WishlistItem : model := {|
  class_name := "WishlistItem";
  tablename := "wishlist_items";
  columns := [
    id_column;
    mapped_column "wishlist_id" false Integer [ForeignKey "wishlists" "id"; Nullable false];
    mapped_column "product_id" false Integer [ForeignKey "products" "id"; Nullable false];
    utc_now_default "created_at";
    utc_now_default_onupdate "updated_at"
  ];
  relationships := [
    rel "wishlist" "wishlists" cascade_default;
    rel "product" "products" cascade_default
  ];
  table_args := []
|}.

(** Modelled from the spec: [base.py] (the declarative [Base]) is not
    among the sources.  The spec gives the association entity no
    synthetic id column and every class above declares its own [id] and
    [__tablename__], so [Base] contributes no column: the registry is
    the classes of [models/__init__.py] as declared. *)
Definition registry : list model :=
  [ Category; ProductCategory; WishlistItem; Order; OrderItem; Payment;
    Product; Review; ShoppingCart; User; UserAddress; Wishlist ].

(** *** What the declarations mean *)

Definition is_primary_key (c : column) : bool :=
  existsb (fun o => match o with PrimaryKey => true | _ => false end) (col_opts c).

Definition is_autoincrement (c : column) : bool :=
  existsb (fun o => match o with Autoincrement => true | _ => false end) (col_opts c).

Definition is_unique (c : column) : bool :=
  existsb (fun o => match o with Unique => true | _ => false end) (col_opts c).

Definition explicit_nullable (c : column) : option bool :=
  head (omap (fun o => match o with Nullable b => Some b | _ => None end) (col_opts c)).

(** A primary key column is NOT NULL; otherwise [nullable=] decides, and
    without it the [| None] of the annotation. *)
Definition is_nullable (c : column) : bool :=
  if is_primary_key c then false
  else match explicit_nullable c with
       | Some b => b
       | None => col_optional c
       end.

Definition foreign_key (c : column) : option (string * string) :=
  head (omap (fun o => match o with ForeignKey t k => Some (t, k) | _ => None end)
             (col_opts c)).

Definition insert_default (c : column) : option dflt :=
  head (omap (fun o => match o with
                       | Default d | ServerDefault d => Some d
                       | _ => None
                       end) (col_opts c)).

Definition primary_key (m : model) : list string :=
  col_name <$> List.filter is_primary_key (columns m).

Definition column_names (m : model) : list string := col_name <$> columns m.

Definition find_column (m : model) (name : string) : option column :=
  List.find (fun c => String.eqb (col_name c) name) (columns m).

Definition find_model (table : string) : option model :=
  List.find (fun m => String.eqb (tablename m) table) registry.

(** Column sets that must be unique: [unique=True] columns and the
    [UniqueConstraint]s of [__table_args__]. *)
Definition unique_sets (m : model) : list (list string) :=
  ((fun c => [col_name c]) <$> List.filter is_unique (columns m))
  ++ omap (fun a => match a with UniqueConstraint cs _ => Some cs | _ => None end)
          (table_args m).

Definition cascades_delete (r : relationship) : bool :=
  existsb (fun o => match o with All | Delete => true | _ => false end) (rel_cascade r).

End Schema.

(** ** The store under the models *)

Module Engine.
Import Schema.

Inductive exn : Type :=
| TypeError              (* an attribute the class does not declare *)
| DataError              (* a value outside its column type *)
| IntegrityError         (* NOT NULL, unique, foreign key or check violated *)
| InvalidRequestError.   (* the instance is not persisted *)

Inductive result (A : Type) : Type :=
| Ok (a : A)
| Raise (e : exn).
Arguments Ok {A} a.
Arguments Raise {A} e.

(** A row maps column names to values; a column the row leaves out
    reads as NULL. *)
Abbreviation row := (gmap string value).

Record db : Type := mk_db {
  tables : gmap string (list row);
  sequences : gmap string Z
}.

Definition empty_db : db := mk_db ∅ ∅.

Definition get (r : row) (c : string) : value := default VNull (r !! c).

Definition table (d : db) (t : string) : list row := default [] (tables d !! t).

Definition sequence (d : db) (t : string) : Z := default 0 (sequences d !! t).

Definition is_null (v : value) : bool :=
  match v with VNull => true | _ => false end.

(** SQL's [=]: NULL equals nothing. *)
Definition sql_eqb (a b : value) : bool := negb (is_null a) && bool_decide (a = b).

(** Does a value fit the column type (PostgreSQL: [INTEGER] is 32 bit,
    [VARCHAR(n)] bounds the length, [NUMERIC(p, s)] bounds the digits)?
    NULL fits every type; nullability is checked apart. *)
Definition type_ok (ty : sqltype) (v : value) : bool :=
  match v, ty with
  | VNull, _ => true
  | VInt z, Integer => (-2147483648 <=? z) && (z <=? 2147483647)
  | VStr s, String_ None => true
  | VStr s, Text => true
  | VStr s, String_ (Some n) => (String.length s <=? n)%nat
  | VStr s, Enum_ members => bool_decide (s ∈ members)
  | VNum u, Numeric p _ => Z.abs u <? 10 ^ Z.of_nat p
  | VBool _, Boolean => true
  | VTime _, DateTime _ => true
  | _, _ => false
  end.

(** *** INSERT *)

(** The autoincrement column of a model: its single integer primary key
    column, when flagged. *)
Definition autoincrement_column (m : model) : option column :=
  match List.filter is_primary_key (columns m) with
  | [c] => match col_type c with
           | Integer => if is_autoincrement c then Some c else None
           | _ => None
           end
  | _ => None
  end.

Definition wants_sequence (m : model) (r : row) : bool :=
  match autoincrement_column m with
  | Some c => is_null (get r (col_name c))
  | None => false
  end.

(** A column the row leaves out takes its default; the autoincrement
    column left out (or None) takes the next sequence value. *)
Definition fill_column (m : model) (now next_id : Z) (c : column) (r : row) : row :=
  match autoincrement_column m with
  | Some a =>
      if String.eqb (col_name a) (col_name c) && is_null (get r (col_name c))
      then <[col_name c := VInt next_id]> r
      else match r !! col_name c, insert_default c with
           | None, Some (DValue v) => <[col_name c := v]> r
           | None, Some DNow => <[col_name c := VTime now]> r
           | _, _ => r
           end
  | None =>
      match r !! col_name c, insert_default c with
      | None, Some (DValue v) => <[col_name c := v]> r
      | None, Some DNow => <[col_name c := VTime now]> r
      | _, _ => r
      end
  end.

Definition fill (m : model) (now next_id : Z) (r : row) : row :=
  foldr (fill_column m now next_id) r (columns m).

(** Two rows collide on a column set when they agree on every column of
    it with non-NULL values. *)
Definition collide (cols : list string) (r r' : row) : bool :=
  match cols with
  | [] => false
  | _ => forallb (fun c => sql_eqb (get r c) (get r' c)) cols
  end.

Definition unique_ok (m : model) (rows : list row) (r : row) : bool :=
  forallb (fun cols => negb (existsb (collide cols r) rows))
          (primary_key m :: unique_sets m).

Definition foreign_keys_ok (m : model) (d : db) (r : row) : bool :=
  forallb (fun c =>
             match foreign_key c with
             | None => true
             | Some (t, k) =>
                 let v := get r (col_name c) in
                 is_null v || existsb (fun p => sql_eqb v (get p k)) (table d t)
             end) (columns m).

(** A CHECK passes unless it evaluates to false; on NULL it is unknown. *)
Definition checks_ok (m : model) (r : row) : bool :=
  forallb (fun a =>
             match a with
             | CheckNotEqual c v _ => is_null (get r c) || negb (bool_decide (get r c = v))
             | _ => true
             end) (table_args m).

Definition insert (m : model) (now : Z) (r : row) (d : db) : result db :=
  let t := tablename m in
  let next_id := sequence d t + 1 in
  let r1 := fill m now next_id r in
  if negb (forallb (fun k => bool_decide (k ∈ column_names m)) (elements (dom r)))
  then Raise TypeError
  else if negb (forallb (fun c => type_ok (col_type c) (get r1 (col_name c))) (columns m))
  then Raise DataError
  else if negb (forallb (fun c => is_nullable c || negb (is_null (get r1 (col_name c))))
                        (columns m))
  then Raise IntegrityError
  else if negb (unique_ok m (table d t) r1) then Raise IntegrityError
  else if negb (foreign_keys_ok m d r1) then Raise IntegrityError
  else if negb (checks_ok m r1) then Raise IntegrityError
  else Ok {| tables := <[t := table d t ++ [r1]]> (tables d);
             sequences := if wants_sequence m r
                          then <[t := next_id]> (sequences d)
                          else sequences d |}.

(** *** session.delete *)

Inductive direction : Type := OneToMany | ManyToOne | ManyToMany.

(** The (child column, parent column) pairs of the foreign keys of
    [child] into [parent_table]. *)
Definition fk_columns_to (child : model) (parent_table : string) : list (string * string) :=
  omap (fun c => match foreign_key c with
                 | Some (t, k) =>
                     if String.eqb t parent_table then Some (col_name c, k) else None
                 | None => None
                 end) (columns child).

(** The direction SQLAlchemy derives for a relationship declared on [m]:
    many-to-many with a secondary table; otherwise by the side holding
    the foreign key, [remote_side] settling the self-referential case. *)
Definition direction_of (m : model) (r : relationship) : option direction :=
  match rel_secondary r, find_model (rel_target r) with
  | Some _, _ => Some ManyToMany
  | None, None => None
  | None, Some tm =>
      if String.eqb (tablename tm) (tablename m)
      then Some (if rel_remote_side r then ManyToOne else OneToMany)
      else match fk_columns_to m (tablename tm), fk_columns_to tm (tablename m) with
           | _ :: _, _ => Some ManyToOne
           | [], _ :: _ => Some OneToMany
           | [], [] => None
           end
  end.

Definition references (child : model) (parent_table : string) (parent r' : row) : bool :=
  existsb (fun '(ccol, pcol) => sql_eqb (get r' ccol) (get parent pcol))
          (fk_columns_to child parent_table).

(** Rows of [child] that reference the row [parent] of [parent_table]. *)
Definition referencing (d : db) (child : model) (parent_table : string) (parent : row)
  : list row :=
  List.filter (references child parent_table parent) (table d (tablename child)).

(** The rows one step down the delete cascade from a row. *)
Definition cascade_children (d : db) (x : string * row) : list (string * row) :=
  match find_model x.1 with
  | None => []
  | Some m =>
      flat_map (fun r =>
                  match direction_of m r, find_model (rel_target r) with
                  | Some OneToMany, Some tm =>
                      if cascades_delete r
                      then map (pair (tablename tm)) (referencing d tm (tablename m) x.2)
                      else []
                  | _, _ => []
                  end) (relationships m)
  end.

Fixpoint cascade (fuel : nat) (d : db) (frontier : list (string * row))
  : list (string * row) :=
  match fuel with
  | O => frontier
  | S n => frontier ++ cascade n d (flat_map (cascade_children d) frontier)
  end.

Definition row_count (d : db) : nat :=
  map_fold (fun _ rows n => (length rows + n)%nat) 0%nat (tables d).

(** A cascade path visits a row of a class per step: its length is
    bounded by the classes and rows there are. *)
Definition cascade_fuel (d : db) : nat := (length registry + row_count d)%nat.

(** Rows of secondary (association) tables that link a deleted row. *)
Definition secondary_rows (d : db) (x : string * row) : list (string * row) :=
  match find_model x.1 with
  | None => []
  | Some m =>
      flat_map (fun r =>
                  match rel_secondary r with
                  | Some s =>
                      match find_model s with
                      | Some sm => map (pair s) (referencing d sm (tablename m) x.2)
                      | None => []
                      end
                  | None => []
                  end) (relationships m)
  end.

Definition is_gone (gone : list (string * row)) (t : string) (r : row) : bool :=
  existsb (fun x => String.eqb x.1 t && bool_decide (x.2 = r)) gone.

(** Does the class of [parent_table] hold a one-to-many relationship to
    [child_table] that does not cascade the delete?  Its children are
    detached: their foreign key is set to NULL. *)
Definition detaches (parent_table child_table : string) : bool :=
  match find_model parent_table with
  | None => false
  | Some pm =>
      existsb (fun r =>
                 String.eqb (rel_target r) child_table
                 && negb (cascades_delete r)
                 && match direction_of pm r with
                    | Some OneToMany => true
                    | _ => false
                    end) (relationships pm)
  end.

(** The foreign key columns of a surviving row that the delete sets to
    NULL. *)
Definition detached_columns (gone : list (string * row)) (m : model) (r' : row)
  : list column :=
  List.filter (fun c =>
                 match foreign_key c with
                 | None => false
                 | Some (t, k) =>
                     detaches t (tablename m)
                     && existsb (fun x => String.eqb x.1 t
                                          && sql_eqb (get r' (col_name c)) (get x.2 k)) gone
                 end) (columns m).

Definition detach (gone : list (string * row)) (t : string) (r' : row) : row :=
  match find_model t with
  | None => r'
  | Some m => foldr (fun c r => <[col_name c := VNull]> r) r' (detached_columns gone m r')
  end.

Definition after_delete (gone : list (string * row)) (t : string) (rows : list row)
  : list row :=
  map (detach gone t) (List.filter (fun r' => negb (is_gone gone t r')) rows).

Definition detach_ok (gone : list (string * row)) (d : db) : bool :=
  forallb (fun m =>
             forallb (fun r' => is_gone gone (tablename m) r'
                                || forallb is_nullable (detached_columns gone m r'))
                     (table d (tablename m))) registry.

(** The foreign keys hold no ON DELETE action: a surviving row that
    still references a deleted row, with no other row carrying the
    referenced value, violates its constraint. *)
Definition no_dangling (gone : list (string * row)) (d' : db) : bool :=
  forallb (fun m =>
    forallb (fun r' =>
      forallb (fun c =>
        match foreign_key c with
        | None => true
        | Some (t, k) =>
            let v := get r' (col_name c) in
            negb (existsb (fun x => String.eqb x.1 t && sql_eqb v (get x.2 k)) gone)
            || existsb (fun p => sql_eqb v (get p k)) (table d' t)
        end) (columns m)) (table d' (tablename m))) registry.

(** [session.delete(obj); session.commit()] for the persisted row [r]
    of class [m]. *)
Definition session_delete (m : model) (r : row) (d : db) : result db :=
  if negb (bool_decide (r ∈ table d (tablename m))) then Raise InvalidRequestError
  else
    let marked := cascade (cascade_fuel d) d [(tablename m, r)] in
    let gone := marked ++ flat_map (secondary_rows d) marked in
    if negb (detach_ok gone d) then Raise IntegrityError
    else
      let d' := {| tables := map_imap (fun t rows => Some (after_delete gone t rows))
                                      (tables d);
                   sequences := sequences d |} in
      if no_dangling gone d' then Ok d' else Raise IntegrityError.

(** *** States of the store *)

(** The store after a statement: a rejected write leaves it as it was. *)
Definition after (d : db) (res : result db) : db :=
  match res with Ok d' => d' | Raise _ => d end.

(** No two rows collide on the column set. *)
Fixpoint pairwise_distinct (cols : list string) (rows : list row) : bool :=
  match rows with
  | [] => true
  | r :: rs => negb (existsb (collide cols r) rs) && pairwise_distinct cols rs
  end.

Definition not_null_ok (m : model) (r : row) : bool :=
  forallb (fun c => is_nullable c || negb (is_null (get r (col_name c)))) (columns m).

Definition table_ok (m : model) (rows : list row) : bool :=
  forallb (not_null_ok m) rows
  && forallb (fun cols => pairwise_distinct cols rows) (primary_key m :: unique_sets m).

(** Every table satisfies the NOT NULL, primary key and unique
    declarations of its class. *)
Definition constraints_hold (d : db) : bool :=
  forallb (fun m => table_ok m (table d (tablename m))) registry.

(** The stores the mapped classes can produce: from the empty store by
    INSERTs and deletes that went through. *)
Inductive reachable : db -> Prop :=
| reach_empty : reachable empty_db
| reach_insert m now r d d' :
    In m registry -> reachable d -> insert m now r d = Ok d' -> reachable d'
| reach_delete m r d d' :
    In m registry -> reachable d -> session_delete m r d = Ok d' -> reachable d'.

(** *** The cascade, read off the schema alone *)

(** The tables one delete-cascade step away from table [t]. *)
Definition cascade_targets (t : string) : list string :=
  match find_model t with
  | None => []
  | Some m =>
      flat_map (fun r =>
                  match direction_of m r, find_model (rel_target r) with
                  | Some OneToMany, Some tm =>
                      if cascades_delete r then [tablename tm] else []
                  | _, _ => []
                  end) (relationships m)
  end.

(** The tables a delete cascade started in [ts] reaches within [n] steps. *)
Fixpoint cascade_tables (n : nat) (ts : list string) : list string :=
  match n with
  | O => ts
  | S k => ts ++ cascade_tables k (flat_map cascade_targets ts)
  end.

Definition mem (t : string) (l : list string) : bool := existsb (String.eqb t) l.

Definition has_secondary (t : string) : bool :=
  match find_model t with
  | None => false
  | Some m => existsb (fun r => match rel_secondary r with Some _ => true | None => false end)
                      (relationships m)
  end.

(** Every foreign key that a delete within the tables [R] detaches is
    nullable. *)
Definition detach_nullable (R : list string) : bool :=
  forallb (fun m =>
    forallb (fun c =>
      match foreign_key c with
      | Some (t, _) => negb (mem t R && detaches t (tablename m)) || is_nullable c
      | None => true
      end) (columns m)) registry.

(** Every foreign key into the tables [R] is followed by a relationship
    of the referenced class: one that cascades the delete or one that
    detaches. *)
Definition fk_covered (R : list string) : bool :=
  forallb (fun m =>
    forallb (fun c =>
      match foreign_key c with
      | Some (t, _) =>
          negb (mem t R) || mem (tablename m) (cascade_targets t) || detaches t (tablename m)
      | None => true
      end) (columns m)) registry.
(** The two foreign key columns several classes declare alike. *)
Definition user_id_col : column :=
  mapped_column "user_id" false Integer [ForeignKey "users" "id"; Nullable false].

Definition sku_col : column :=
  mapped_column "sku" false (String_ (Some 50%nat)) [Unique; Nullable false].

Definition slug_col : column :=
  mapped_column "slug" false (String_ (Some 255%nat)) [Unique; Nullable false].

Definition product_id_col : column :=
  mapped_column "product_id" false Integer [ForeignKey "products" "id"; Nullable false].

(** *** A small shop

    One user with an address, a wishlist holding the one product, that
    product in the cart, reviewed, ordered and paid. *)
Definition example_rows : list (model * row) :=
  [ (User, {[ "email" := VStr "a@x.com"; "password_hash" := VStr "h" ]});
    (Product, {[ "sku" := VStr "SKU-001"; "name" := VStr "P";
                 "price" := VNum 10000; "slug" := VStr "p" ]});
    (UserAddress, {[ "user_id" := VInt 1; "line1" := VStr "1 Main St";
                     "city" := VStr "Berlin"; "postal_code" := VStr "10115";
                     "country" := VStr "DE" ]});
    (ShoppingCart, {[ "user_id" := VInt 1; "product_id" := VInt 1 ]});
    (Wishlist, {[ "user_id" := VInt 1; "name" := VStr "later" ]});
    (WishlistItem, {[ "wishlist_id" := VInt 1; "product_id" := VInt 1 ]});
    (Review, {[ "user_id" := VInt 1; "product_id" := VInt 1; "rating" := VInt 5 ]});
    (Order, {[ "user_id" := VInt 1; "shipping_address_id" := VInt 1;
               "order_number" := VStr "20250101-1-100000";
               "total_amount" := VNum 20000 ]});
    (OrderItem, {[ "order_id" := VInt 1; "product_id" := VInt 1;
                   "quantity" := VInt 2; "unit_price" := VNum 10000 ]});
    (Payment, {[ "order_id" := VInt 1; "user_id" := VInt 1;
                 "payment_method" := VStr "card"; "amount" := VNum 20000 ]}) ].

Definition run_inserts (rows : list (model * row)) (d : db) : db :=
  fold_left (fun d x => after d (insert x.1 0 x.2 d)) rows d.

Definition example_db : db := run_inserts example_rows empty_db.

Definition example_user : row := default ∅ (head (table example_db "users")).

Definition example_cart_row : row := default ∅ (head (table example_db "shopping_cart")).

Definition example_product : row := default ∅ (head (table example_db "products")).

(** [Review(user_id=u, product_id=p, rating=x)] *)
Definition review_row (u p x : Z) : row :=
  {[ "user_id" := VInt u; "product_id" := VInt p; "rating" := VInt x ]}.

Definition accepted (res : result db) : bool :=
  match res with Ok _ => true | Raise _ => false end.



End Engine.


(** ** Part II — the seeding utility (fake_data.py) *)

Module FakeData.

Inductive exn : Type :=
| ValueError               (* random.randint on an empty range *)
| IndexError               (* random.choice on an empty sequence *)
| UniquenessException      (* faker.unique ran out of attempts *)
| NoResultFound            (* scalar_one() on no row *)
| MultipleResultsFound     (* scalar_one() / scalar_one_or_none() on several rows *)
| DBAPIError.              (* the commit failed *)

Inductive result (A : Type) : Type :=
| Ok (a : A)
| Raise (e : exn).
Arguments Ok {A} a.
Arguments Raise {A} e.

(** *** The objects the generator builds

    Datetimes are seconds, money is cents ([Numeric(10, 2)] read back as
    an exact decimal; the floats of [create_fake_products] are kept in the
    same fixed-point form).  An object carries the attributes its
    constructor call sets; the [id] is given by the database, so a table
    pairs each id with its object. *)

Inductive UserStatus : Type := active | banned | deleted.

Record User : Type := mk_User {
  user_email : string;
  user_phone : string;
  user_password_hash : string;
  user_password_algo : string;
  user_password_changed_at : Z;
  user_preferred_locale : string;
  user_timezone : string;
  user_default_currency : string;
  user_marketing_opt_in : bool;
  user_terms_accepted_at : Z;
  user_status : UserStatus;
  user_failed_login_attempts : Z;
  user_lockout_until : option Z;
  user_created_at : Z;
  user_updated_at : Z;
  user_last_login_at : Z;
  user_gdpr_erasure_requested_at : option Z
}.

Record Category : Type := mk_Category {
  category_parent_id : option Z;
  category_name : string;
  category_slug : string;
  category_description : option string;
  category_is_active : bool
}.

Record Product : Type := mk_Product {
  product_name : string;
  product_sku : string;
  product_description : string;
  product_brand : string;
  product_price : Z;
  product_discount_price : option Z;
  product_stock : Z;
  product_is_active : bool;
  product_slug : string;
  product_meta_title : string;
  product_meta_description : string;
  product_created_at : Z;
  product_updated_at : Z;
  product_categories : list (Z * Category)
}.

Record UserAddress : Type := mk_UserAddress {
  address_user_id : Z;
  address_line1 : string;
  address_line2 : option string;
  address_city : string;
  address_state : string;
  address_postal_code : string;
  address_country : string;
  address_is_default_shipping : bool;
  address_is_default_billing : bool
}.

Inductive OrderStatusENUM : Type :=
| PENDING | PAID | SHIPPING | DELIVERED | COMPLETED | CANCELED.

Record OrderItem : Type := mk_OrderItem {
  item_product_id : Z;
  item_quantity : Z;
  item_unit_price : Z
}.

Record Order : Type := mk_Order {
  order_user_id : Z;
  order_shipping_address_id : option Z;
  order_number : string;
  order_status : OrderStatusENUM;
  order_total_amount : Z;
  order_is_paid : bool;
  order_items : list OrderItem
}.

(** *** The world the generator runs in *)

(** What the run does not decide: the numbers [random] draws, the strings
    [Faker] produces, the clock, whether a commit goes through, and the
    parts of the repository and of its libraries that are not among the
    sources ([storage.py]: [get_categories], [DataLists], the comparison
    of an [OrderStatusENUM] member with [PENDING.value]; [hashlib.sha256];
    the [%Y%m%d] format of a date). *)
Record Env : Type := mk_Env {
  entropy : nat -> nat;
  faker_text : nat -> string;
  clock : nat -> Z;
  commit_fails : nat -> bool;
  sha256_hexdigest : string -> string;
  format_Ymd : Z -> string;
  get_categories : list Category;
  streets : list string;
  cities : list string;
  states : list string;
  countries : list string;
  differs_from_pending_value : OrderStatusENUM -> bool
}.

Record Cursors : Type := mk_Cursors {
  draws : nat;                       (* calls of [random] so far *)
  texts : nat;                       (* calls of [Faker] so far *)
  ticks : nat;                       (* readings of the clock so far *)
  commits : nat;                     (* commits attempted so far *)
  seen : list (string * string)      (* faker.unique: method, value *)
}.

Record Db : Type := mk_Db {
  db_users : list (Z * User);
  db_categories : list (Z * Category);
  db_products : list (Z * Product);
  db_user_address : list (Z * UserAddress);
  db_orders : list (Z * Order)
}.

Record World : Type := mk_World {
  env : Env;
  cur : Cursors;
  db : Db
}.

Definition M (A : Type) : Type := World -> result A * World.

Definition ret {A} (a : A) : M A := fun w => (Ok a, w).

Definition raise {A} (e : exn) : M A := fun w => (Raise e, w).

Definition bind {A B} (c : M A) (k : A -> M B) : M B :=
  fun w => match c w with
           | (Ok a, w1) => k a w1
           | (Raise e, w1) => (Raise e, w1)
           end.

Notation "'let*' x ':=' c 'in' k" := (bind c (fun x => k))
  (at level 10, x name, c at level 100, k at level 200).

(** [for _ in range(n)] over the variables the loop body rebinds; a
    [continue] is a body that returns them as they are. *)
Fixpoint for_range {S} (n : nat) (body : S -> M S) (s : S) : M S :=
  match n with
  | O => ret s
  | Datatypes.S k => let* s1 := body s in for_range k body s1
  end.

Definition ask : M Env := fun w => (Ok (env w), w).

Definition read_db : M Db := fun w => (Ok (db w), w).

(** **** random *)

Definition random_draw : M nat :=
  fun w =>
    let c := cur w in
    (Ok (entropy (env w) (draws c)),
     mk_World (env w) (mk_Cursors (S (draws c)) (texts c) (ticks c) (commits c) (seen c))
              (db w)).

(** [random.randint(a, b)]: an integer N with a <= N <= b. *)
Definition randint (a b : Z) : M Z :=
  if b <? a then raise ValueError
  else let* n := random_draw in ret (a + Z.of_nat n mod (b - a + 1)).

(** [random.choice(seq)] *)
Definition choice {A} (seq : list A) : M A :=
  match seq with
  | [] => raise IndexError
  | x :: _ => let* n := random_draw in ret (nth (n mod length seq) seq x)
  end.

(** [round(random.uniform(lo, hi), 2)], bounds and result in cents. *)
Definition uniform_cents (lo hi : Z) : M Z :=
  let* n := random_draw in ret (lo + Z.of_nat n mod (hi - lo + 1)).

(** [random.random() < p], with p in thousandths. *)
Definition random_below (p : Z) : M bool :=
  let* n := random_draw in ret (Z.of_nat n mod 1000 <? p).

(** **** Faker and the clock *)

Definition faker_call : M string :=
  fun w =>
    let c := cur w in
    (Ok (faker_text (env w) (texts c)),
     mk_World (env w) (mk_Cursors (draws c) (S (texts c)) (ticks c) (commits c) (seen c))
              (db w)).

Definition was_seen (method v : string) : M bool :=
  fun w => (Ok (existsb (fun '(m, x) => String.eqb m method && String.eqb x v)
                        (seen (cur w))), w).

Definition mark_seen (method v : string) : M unit :=
  fun w =>
    let c := cur w in
    (Ok tt,
     mk_World (env w)
              (mk_Cursors (draws c) (texts c) (ticks c) (commits c) ((method, v) :: seen c))
              (db w)).

(** [faker.unique.<method>()]: generate until a value not handed out
    before by this method comes up, giving up after 1000 attempts. *)
Fixpoint unique_attempts (fuel : nat) (method : string) : M string :=
  match fuel with
  | O => raise UniquenessException
  | S n =>
      let* v := faker_call in
      let* dup := was_seen method v in
      if dup then unique_attempts n method
      else let* _ := mark_seen method v in ret v
  end.

Definition faker_unique (method : string) : M string := unique_attempts 1000 method.

(** [datetime.now(...)] *)
Definition now : M Z :=
  fun w =>
    let c := cur w in
    (Ok (clock (env w) (ticks c)),
     mk_World (env w) (mk_Cursors (draws c) (texts c) (S (ticks c)) (commits c) (seen c))
              (db w)).


Definition str (z : Z) : string := NilZero.string_of_int (Z.to_int z).

(** *** FakeData *)

Record FakeData : Type := mk_FakeData {
  limitation : Z;
  batch_size : Z
}.

(** [FakeData.__init__]; a seed only fixes which entropy the generators
    go through, and that is the world's. *)
Definition init (seed : option Z) : FakeData :=
  {| limitation := 10000; batch_size := 500 |}.


(** [scalar_one_or_none()] and [scalar_one()] over the rows a SELECT
    returned. *)
Definition scalar_one_or_none {A} (rows : list A) : M (option A) :=
  match rows with
  | [] => ret None
  | [x] => ret (Some x)
  | _ => raise MultipleResultsFound
  end.

Definition scalar_one {A} (rows : list A) : M A :=
  match rows with
  | [] => raise NoResultFound
  | [x] => ret x
  | _ => raise MultipleResultsFound
  end.

Definition where_id {A} (i : Z) (rows : list (Z * A)) : list (Z * A) :=
  List.filter (fun r => r.1 =? i) rows.

Definition check_user_exists (user_id : Z) : M bool :=
  let* d := read_db in
  let* r := scalar_one_or_none (where_id user_id (db_users d)) in
  ret (match r with Some _ => true | None => false end).

Definition check_product_exists (product_id : Z) : M bool :=
  let* d := read_db in
  let* r := scalar_one_or_none (where_id product_id (db_products d)) in
  ret (match r with Some _ => true | None => false end).

(** SQL's [min] and [max]: NULL over no row. *)
Definition sql_min (l : list Z) : option Z :=
  match l with
  | [] => None
  | x :: xs => Some (fold_right Z.min x xs)
  end.

Definition sql_max (l : list Z) : option Z :=
  match l with
  | [] => None
  | x :: xs => Some (fold_right Z.max x xs)
  end.

Definition get_min_max_user_id : M (option Z * option Z) :=
  let* d := read_db in
  let ids := map fst (db_users d) in
  ret (sql_min ids, sql_max ids).

(** The [for _ in range(10000)] of [get_random_existing_user_id]; falling
    off its end returns None. *)
Fixpoint probe_user_ids (n : nat) (min_id max_id : Z) : M (option Z) :=
  match n with
  | O => ret None
  | S k =>
      let* random_id := randint min_id max_id in
      let* found := check_user_exists random_id in
      if found then ret (Some random_id)
      else probe_user_ids k min_id max_id
  end.

Definition get_random_existing_user_id : M (option Z) :=
  let* mm := get_min_max_user_id in
  match mm with
  | (Some min_id, Some max_id) => probe_user_ids (Z.to_nat 10000) min_id max_id
  | _ => ret None
  end.

(** **** create_fake_users *)



Definition create_fake_categories : M (list Category) :=
  let* e := ask in ret (get_categories e).

(** **** create_fake_products *)





(** **** The session

    Objects handed to [session.add] / [session.add_all] wait until
    [session.commit()]; a commit that goes through gives each a fresh id
    and appends it to its table; one that fails raises, and leaving the
    [async with] block on the exception discards what was waiting. *)

Definition next_id {A} (rows : list (Z * A)) : Z :=
  1 + fold_right Z.max 0 (map fst rows).

Fixpoint persist {A} (rows : list (Z * A)) (pending : list A) : list (Z * A) :=
  match pending with
  | [] => rows
  | x :: xs => persist (rows ++ [(next_id rows, x)]) xs
  end.

Definition attempt_commit (store : Db -> Db) : M unit :=
  fun w =>
    let c := cur w in
    let c1 := mk_Cursors (draws c) (texts c) (ticks c) (S (commits c)) (seen c) in
    if commit_fails (env w) (commits c)
    then (Raise DBAPIError, mk_World (env w) c1 (db w))
    else (Ok tt, mk_World (env w) c1 (store (db w))).


Definition commit_orders (pending : list Order) : M unit :=
  attempt_commit (fun d =>
    mk_Db (db_users d) (db_categories d) (db_products d)
          (db_user_address d) (persist (db_orders d) pending)).

(** **** create_fake_addresses *)





(** **** create_fake_orders *)

Definition addresses_of (d : Db) (user_id : Z) : list (Z * UserAddress) :=
  List.filter (fun r => address_user_id r.2 =? user_id) (db_user_address d).

Definition fake_order_item (product_ids : list Z) (order_items : list OrderItem)
  : M (list OrderItem) :=
  let* product_id := choice product_ids in
  let* d := read_db in
  let* current_product := scalar_one (where_id product_id (db_products d)) in
  let* quantity := randint 1 100 in
  let item := {| item_product_id := product_id;
                 item_quantity := quantity;
                 item_unit_price := product_price current_product.2 |} in
  ret (order_items ++ [item]).

Definition sum (l : list Z) : Z := fold_left Z.add l 0.

(** One turn of the loop; the loop variable is what [session.add] has
    collected. *)
Definition order_step (max_items_in_order : Z) (added : list Order) : M (list Order) :=
  let* random_user_id := get_random_existing_user_id in
  match random_user_id with
  | None => ret added
  | Some random_user_id =>
      let* d := read_db in
      let* current_user := scalar_one (where_id random_user_id (db_users d)) in
      match addresses_of d current_user.1 with
      | [] => ret added
      | first_address :: _ =>
          let* order_status_gen :=
            choice [PENDING; PAID; SHIPPING; DELIVERED; COMPLETED; CANCELED] in
          let* e := ask in
          let* today := now in
          let* suffix := randint 100000 999999 in
          let order_number :=
            format_Ymd e today +:+ "-" +:+ str current_user.1 +:+ "-" +:+ str suffix in
          let product_ids := map fst (db_products d) in
          match product_ids with
          | [] => ret added
          | _ :: _ =>
              let* n := randint 1 max_items_in_order in
              let* order_items := for_range (Z.to_nat n) (fake_order_item product_ids) [] in
              let order :=
                {| order_user_id := random_user_id;
                   order_shipping_address_id := Some first_address.1;
                   order_number := order_number;
                   order_status := order_status_gen;
                   order_total_amount :=
                     sum (map (fun item => item_unit_price item * item_quantity item)
                              order_items);
                   order_is_paid := differs_from_pending_value e order_status_gen;
                   order_items := order_items |} in
              ret (added ++ [order])
          end
      end
  end.

Definition create_fake_orders (self : FakeData) (how_many max_items_in_order : Z) : M unit :=
  let how_many := Z.min how_many (limitation self) in
  let max_items_in_order := Z.min max_items_in_order (limitation self) in
  let* added := for_range (Z.to_nat how_many) (order_step max_items_in_order) [] in
  commit_orders added.

(** *** What the run keeps and changes *)

(** A computation that leaves the environment, the database and the
    commit counter alone. *)
Definition quiet {A} (c : M A) : Prop :=
  ∀ w, env (c w).2 = env w ∧ db (c w).2 = db w
       ∧ commits (cur (c w).2) = commits (cur w).


(** *** What an order of the generator looks like *)

Definition item_priced (d : Db) (i : OrderItem) : Prop :=
  ∃ p, In (item_product_id i, p) (db_products d) ∧ item_unit_price i = product_price p.

Definition total_is_sum (o : Order) : Prop :=
  order_total_amount o
  = sum (map (fun i => item_quantity i * item_unit_price i) (order_items o)).

Definition well_addressed (d : Db) (o : Order) : Prop :=
  In (order_user_id o) (map fst (db_users d))
  ∧ ∃ aid a, order_shipping_address_id o = Some aid
             ∧ In (aid, a) (db_user_address d)
             ∧ address_user_id a = order_user_id o.

Definition good_order (d : Db) (o : Order) : Prop :=
  total_is_sum o ∧ Forall (item_priced d) (order_items o)
  ∧ well_addressed d o ∧ order_items o ≠ [].

(** *** Worlds to run in *)

Definition example_env (draw : nat -> nat) (fails : nat -> bool) : Env := {|
  entropy := draw;
  faker_text := fun n => "text" +:+ str (Z.of_nat n);
  clock := fun n => 1700000000 + Z.of_nat n;
  commit_fails := fails;
  sha256_hexdigest := fun s => "sha256:" +:+ s;
  format_Ymd := fun _ => "20250101";
  get_categories := [];
  streets := ["Main St"; "Oak Ave"];
  cities := ["Berlin"];
  states := ["BE"];
  countries := ["DE"; "US"];
  differs_from_pending_value := fun s => match s with PENDING => false | _ => true end
|}.

Definition example_user_object : User :=
  mk_User "a@x.com" "491700000000" "h" "sha256" 0 "en" "UTC" "USD" false 0 active 0
          None 0 0 0 None.

Definition start (e : Env) (d : Db) : World := mk_World e (mk_Cursors 0 0 0 0 []) d.

(** Users 1 and 3 and a generator that keeps drawing the gap between. *)
Definition sparse_world : World :=
  start (example_env (fun _ => 1%nat) (fun _ => false))
        (mk_Db [(1, example_user_object); (3, example_user_object)] [] [] [] []).

Definition example_address (user_id : Z) : UserAddress :=
  mk_UserAddress user_id "1 Main St" None "Berlin" "BE" "10115" "DE" true true.

Definition example_product_object (price : Z) : Product :=
  mk_Product "P" "SKU" "d" "b" price None 1 true "p" "P" "d" 0 0 [].

(** Users 1, 2 and 4, of whom 1 and 4 have an address, and two products. *)
Definition orders_world : World :=
  start (example_env (fun n => (n * 7 + 3)%nat) (fun _ => false))
        (mk_Db [(1, example_user_object); (2, example_user_object); (4, example_user_object)]
               []
               [(1, example_product_object 1000); (2, example_product_object 250)]
               [(1, example_address 1); (2, example_address 4)]
               []).




End FakeData.


(** ** Part III — properties of the store *)

Module StoreProofs.
Import Schema Engine.

Ltac registry_cases H :=
  unfold registry in H; simpl in H;
  repeat (destruct H as [<- | H]); [ .. | contradiction ].

Lemma find_model_registry m : In m registry → find_model (tablename m) = Some m.
Proof. intros H. registry_cases H; reflexivity. Qed.

Lemma registry_tablename_inj m m' :
  In m registry → In m' registry → tablename m = tablename m' → m = m'.
Proof.
  intros H H' E. apply find_model_registry in H, H'. congruence.
Qed.

Lemma columns_nodup m : In m registry → List.NoDup (map col_name (columns m)).
Proof.
  intros H. apply NoDup_ListNoDup. registry_cases H; simpl; apply (bool_decide_unpack _); vm_compute; exact I.
Qed.

Lemma table_after_insert (d : db) t rows s t' :
  table (mk_db (<[t := rows]> (tables d)) s) t' = if decide (t = t') then rows else table d t'.
Proof.
  unfold table. simpl. rewrite lookup_insert. destruct (decide (t = t')); done.
Qed.

Lemma table_after_delete (d : db) gone s t :
  table (mk_db (map_imap (fun t rows => Some (after_delete gone t rows)) (tables d)) s) t
  = after_delete gone t (table d t).
Proof.
  unfold table. simpl. rewrite map_lookup_imap. destruct (tables d !! t); done.
Qed.

Lemma insert_inv m now r d d' :
  insert m now r d = Ok d' →
  let r1 := fill m now (sequence d (tablename m) + 1) r in
  not_null_ok m r1 = true
  ∧ unique_ok m (table d (tablename m)) r1 = true
  ∧ foreign_keys_ok m d r1 = true
  ∧ checks_ok m r1 = true
  ∧ forallb (fun c => type_ok (col_type c) (get r1 (col_name c))) (columns m) = true
  ∧ tables d' = <[tablename m := (table d (tablename m) ++ [r1])%list]> (tables d).
Proof.
  unfold insert, not_null_ok. intros H.
  repeat match type of H with
         | (if negb ?b then _ else _) = _ => destruct b eqn:?; simpl in H; [|discriminate]
         end.
  inversion H; subst; clear H. simpl. auto 10.
Qed.

(** fill *)
Lemma fill_column_lookup_ne m now nx c (r : row) k :
  col_name c ≠ k → fill_column m now nx c r !! k = r !! k.
Proof.
  intros Hne. unfold fill_column.
  destruct (autoincrement_column m) as [a|];
    repeat match goal with
           | |- context [if ?b then _ else _] => destruct b
           | |- context [match ?o with Some _ => _ | None => _ end] => destruct o
           | |- context [match ?o with DValue _ => _ | DNow => _ end] => destruct o
           end; rewrite ?lookup_insert_ne; auto.
Qed.

Lemma fill_lookup_other m now nx cols (r : row) k :
  ~ In k (map col_name cols) →
  foldr (fill_column m now nx) r cols !! k = r !! k.
Proof.
  induction cols as [|c cols IH]; simpl; intros Hk; [done|].
  rewrite fill_column_lookup_ne by tauto. apply IH. tauto.
Qed.

Lemma fill_column_lookup_eq m now nx c (r r' : row) :
  r !! col_name c = r' !! col_name c →
  fill_column m now nx c r !! col_name c = fill_column m now nx c r' !! col_name c.
Proof.
  intros Heq. unfold fill_column, get. rewrite <- Heq.
  destruct (autoincrement_column m) as [a|].
  - destruct (_ && _); [by rewrite !lookup_insert_eq|].
    destruct (r !! col_name c) eqn:E; [congruence|].
    destruct (insert_default c) as [[v|]|]; rewrite ?lookup_insert_eq; congruence.
  - destruct (r !! col_name c) eqn:E; [congruence|].
    destruct (insert_default c) as [[v|]|]; rewrite ?lookup_insert_eq; congruence.
Qed.

Lemma fill_lookup_in m now nx cols (r : row) c :
  List.NoDup (map col_name cols) → In c cols →
  foldr (fill_column m now nx) r cols !! col_name c = fill_column m now nx c r !! col_name c.
Proof.
  induction cols as [|c0 cols IH]; simpl; intros Hnd Hin; [done|].
  inversion Hnd as [|? ? Hnot Hnd']; subst.
  destruct Hin as [->|Hin].
  - apply fill_column_lookup_eq. apply fill_lookup_other. done.
  - rewrite fill_column_lookup_ne. { by apply IH. }
    intros Heq. apply Hnot. rewrite Heq. by apply in_map.
Qed.

Lemma fill_lookup m now nx (r : row) c :
  In m registry → In c (columns m) →
  fill m now nx r !! col_name c = fill_column m now nx c r !! col_name c.
Proof. intros Hm Hc. apply fill_lookup_in; [by apply columns_nodup | done]. Qed.

(** A column without default that is not the autoincrement column keeps
    what the row gives. *)
Lemma fill_keeps m now nx (r : row) c :
  In m registry → In c (columns m) →
  insert_default c = None → is_autoincrement c = false →
  get (fill m now nx r) (col_name c) = get r (col_name c).
Proof.
  intros Hm Hc Hd Ha. unfold get. rewrite fill_lookup by done.
  unfold fill_column. rewrite Hd.
  destruct (autoincrement_column m) as [a|] eqn:Ea.
  - destruct (String.eqb (col_name a) (col_name c)) eqn:En; simpl.
    + apply String.eqb_eq in En.
      assert (a = c) as ->.
      { unfold autoincrement_column in Ea.
        destruct (List.filter is_primary_key (columns m)) as [|a' [|]] eqn:Ef; try discriminate.
        assert (In a' (columns m)) as Hin.
        { assert (In a' (List.filter is_primary_key (columns m))) as Hf by (rewrite Ef; simpl; auto).
          apply filter_In in Hf. tauto. }
        destruct (col_type a'); try discriminate.
        destruct (is_autoincrement a'); inversion Ea; subst.
        pose proof (columns_nodup m Hm) as Hnd.
        clear -Hnd Hin Hc En. induction (columns m) as [|x l IH]; [done|].
        simpl in *. inversion Hnd; subst.
        destruct Hin as [->|Hin], Hc as [->|Hc]; auto.
        - exfalso. apply H1. rewrite En. by apply in_map.
        - exfalso. apply H1. rewrite <- En. by apply in_map. }
      unfold autoincrement_column in Ea.
      destruct (List.filter is_primary_key (columns m)) as [|a' [|]]; try discriminate.
      destruct (col_type a'); try discriminate.
      destruct (is_autoincrement a') eqn:E'; inversion Ea; subst. congruence.
    + destruct (r !! col_name c) eqn:E; simpl; rewrite ?E; reflexivity.
  - destruct (r !! col_name c) eqn:E; simpl; rewrite ?E; reflexivity.
Qed.

(** uniqueness *)
Lemma sql_eqb_sym a b : sql_eqb a b = sql_eqb b a.
Proof.
  unfold sql_eqb. destruct (decide (a = b)) as [->|Hne].
  - done.
  - rewrite !bool_decide_eq_false_2; [by rewrite !andb_false_r | congruence | done].
Qed.

Lemma sql_eqb_true a b : sql_eqb a b = true ↔ a = b ∧ a ≠ VNull.
Proof.
  unfold sql_eqb. rewrite andb_true_iff, negb_true_iff, bool_decide_eq_true.
  destruct a; simpl; intuition congruence.
Qed.

Lemma collide_sym cols a b : collide cols a b = collide cols b a.
Proof.
  unfold collide. destruct cols as [|c cols]; [done|].
  generalize (c :: cols). intros l.
  induction l as [|x l IH]; simpl; [done|]. by rewrite sql_eqb_sym, IH.
Qed.

Lemma pairwise_distinct_snoc cols rows r :
  pairwise_distinct cols rows = true →
  existsb (collide cols r) rows = false →
  pairwise_distinct cols (rows ++ [r]) = true.
Proof.
  induction rows as [|a rows IH]; simpl; intros Hpd Hex; [done|].
  apply andb_true_iff in Hpd as [Ha Hpd].
  apply orb_false_iff in Hex as [Hra Hex].
  rewrite existsb_app. simpl. rewrite collide_sym, Hra, orb_false_r.
  rewrite Ha. simpl. by apply IH.
Qed.

Lemma pairwise_distinct_map_filter cols (f : row → row) (p : row → bool) rows :
  (∀ a b, collide cols (f a) (f b) = true → collide cols a b = true) →
  pairwise_distinct cols rows = true →
  pairwise_distinct cols (map f (List.filter p rows)) = true.
Proof.
  intros Hf. induction rows as [|a rows IH]; simpl; intros Hpd; [done|].
  apply andb_true_iff in Hpd as [Ha Hpd].
  destruct (p a); simpl; [|by apply IH].
  rewrite IH by done. rewrite andb_true_r.
  apply negb_true_iff. apply negb_true_iff in Ha.
  apply not_true_is_false. intros Hex.
  apply existsb_exists in Hex as (b' & Hb' & Hc).
  apply in_map_iff in Hb' as (b & <- & Hb).
  apply filter_In in Hb as [Hb _].
  apply Hf in Hc.
  assert (existsb (collide cols a) rows = true); [|congruence].
  apply existsb_exists. eauto.
Qed.

Lemma pairwise_distinct_lookup cols (rows : list row) i j a b :
  pairwise_distinct cols rows = true →
  rows !! i = Some a → rows !! j = Some b →
  collide cols a b = true → i = j.
Proof.
  revert i j. induction rows as [|x rows IH]; intros i j Hpd Hi Hj Hc; [done|].
  simpl in Hpd. apply andb_true_iff in Hpd as [Hx Hpd].
  apply negb_true_iff in Hx.
  destruct i as [|i], j as [|j]; simpl in *.
  - done.
  - inversion Hi; subst. exfalso.
    assert (existsb (collide cols a) rows = true); [|congruence].
    apply existsb_exists. exists b. split; [|done].
    apply list_elem_of_In. by eapply list_elem_of_lookup_2.
  - inversion Hj; subst. exfalso.
    assert (existsb (collide cols b) rows = true); [|congruence].
    apply existsb_exists. exists a. split; [|by rewrite collide_sym].
    apply list_elem_of_In. by eapply list_elem_of_lookup_2.
  - f_equal. by eapply IH.
Qed.

(** detach *)
Lemma detach_lookup_in (cols : list column) (r : row) k :
  In k (map col_name cols) →
  foldr (fun c r => <[col_name c := VNull]> r) r cols !! k = Some VNull.
Proof.
  induction cols as [|c cols IH]; simpl; [done|]. intros Hin.
  destruct (decide (col_name c = k)) as [->|Hne].
  - by rewrite lookup_insert_eq.
  - rewrite lookup_insert_ne by done. apply IH. tauto.
Qed.

Lemma detach_lookup_notin (cols : list column) (r : row) k :
  ~ In k (map col_name cols) →
  foldr (fun c r => <[col_name c := VNull]> r) r cols !! k = r !! k.
Proof.
  induction cols as [|c cols IH]; simpl; [done|]. intros Hin.
  rewrite lookup_insert_ne by tauto. apply IH. tauto.
Qed.

Lemma detach_get gone t (r : row) k :
  get (detach gone t r) k = VNull ∨ get (detach gone t r) k = get r k.
Proof.
  unfold detach, get. destruct (find_model t) as [m|]; [|by right].
  destruct (in_dec String.string_dec k (map col_name (detached_columns gone m r))) as [Hin|Hin].
  - left. by rewrite detach_lookup_in.
  - right. by rewrite detach_lookup_notin.
Qed.

Lemma collide_detach gone t cols a b :
  collide cols (detach gone t a) (detach gone t b) = true → collide cols a b = true.
Proof.
  unfold collide. destruct cols as [|c cols]; [done|].
  generalize (c :: cols). intros l. rewrite !forallb_forall.
  intros H x Hx. specialize (H x Hx).
  apply sql_eqb_true in H as [Heq Hnn]. apply sql_eqb_true.
  destruct (detach_get gone t a x) as [Ha|Ha]; [congruence|].
  destruct (detach_get gone t b x) as [Hb|Hb]; [congruence|].
  split; congruence.
Qed.

Lemma nodup_names_inj (l : list column) a b :
  List.NoDup (map col_name l) → In a l → In b l → col_name a = col_name b → a = b.
Proof.
  induction l as [|x l IH]; simpl; intros Hnd Ha Hb E; [done|].
  inversion Hnd as [|? ? Hnot Hnd']; subst.
  destruct Ha as [->|Ha], Hb as [->|Hb]; auto.
  - exfalso. apply Hnot. rewrite E. by apply in_map.
  - exfalso. apply Hnot. rewrite <- E. by apply in_map.
Qed.

Lemma not_null_detach gone m (r : row) :
  In m registry →
  forallb is_nullable (detached_columns gone m r) = true →
  not_null_ok m r = true →
  not_null_ok m (detach gone (tablename m) r) = true.
Proof.
  intros Hm Hd Hr. unfold not_null_ok in *. rewrite forallb_forall in *.
  intros c Hc. specialize (Hr c Hc).
  unfold detach, get. rewrite find_model_registry by done.
  destruct (in_dec String.string_dec (col_name c) (map col_name (detached_columns gone m r)))
    as [Hin|Hin].
  - apply in_map_iff in Hin as (c' & E & Hc').
    assert (c' = c) as ->.
    { eapply nodup_names_inj; eauto using columns_nodup.
      unfold detached_columns in Hc'. apply filter_In in Hc'. tauto. }
    rewrite (Hd c Hc'). done.
  - by rewrite detach_lookup_notin.
Qed.

Lemma constraints_empty : constraints_hold empty_db = true.
Proof. reflexivity. Qed.

Lemma constraints_insert m now r d d' :
  In m registry → constraints_hold d = true → insert m now r d = Ok d' →
  constraints_hold d' = true.
Proof.
  intros Hm Hd Hins. apply insert_inv in Hins as (Hnn & Hu & _ & _ & _ & Ht).
  unfold constraints_hold in *. rewrite forallb_forall in *.
  intros m' Hm'. specialize (Hd m' Hm').
  destruct d' as [tabs seqs]. simpl in Ht. subst tabs.
  rewrite table_after_insert.
  destruct (decide (tablename m = tablename m')) as [E|E]; [|done].
  assert (m' = m) as -> by (symmetry; by apply registry_tablename_inj).
  unfold table_ok in *. apply andb_true_iff in Hd as [Hd1 Hd2].
  apply andb_true_iff. split.
  - rewrite forallb_app, Hd1. simpl. by rewrite Hnn.
  - rewrite forallb_forall in *. intros cols Hcols.
    apply pairwise_distinct_snoc; [by apply Hd2|].
    unfold unique_ok in Hu. rewrite forallb_forall in Hu.
    apply negb_true_iff. by apply Hu.
Qed.

Lemma session_delete_inv m r d d' :
  session_delete m r d = Ok d' →
  let marked := cascade (cascade_fuel d) d [(tablename m, r)] in
  let gone := (marked ++ flat_map (secondary_rows d) marked)%list in
  In r (table d (tablename m))
  ∧ detach_ok gone d = true
  ∧ no_dangling gone d' = true
  ∧ d' = mk_db (map_imap (fun t rows => Some (after_delete gone t rows)) (tables d))
               (sequences d).
Proof.
  unfold session_delete. intros H. cbv zeta in *.
  destruct (bool_decide _) eqn:Hin; cbn [negb] in H; [|discriminate].
  apply bool_decide_eq_true in Hin. apply list_elem_of_In in Hin.
  destruct (detach_ok _ d) eqn:Hdet; cbn [negb] in H; [|discriminate].
  destruct (no_dangling _ _) eqn:Hnd; [|discriminate].
  inversion H; subst. auto.
Qed.

Lemma constraints_delete m r d d' :
  In m registry → constraints_hold d = true → session_delete m r d = Ok d' →
  constraints_hold d' = true.
Proof.
  intros Hm Hd Hdel. apply session_delete_inv in Hdel as (_ & Hdet & _ & ->).
  set (gone := (_ ++ _)%list) in *.
  unfold constraints_hold in *. rewrite forallb_forall in *.
  intros m' Hm'. specialize (Hd m' Hm').
  rewrite table_after_delete. unfold after_delete.
  unfold table_ok in *. apply andb_true_iff in Hd as [Hd1 Hd2].
  apply andb_true_iff. split.
  - rewrite forallb_forall in *. intros r'' Hr''.
    apply in_map_iff in Hr'' as (r' & <- & Hr').
    apply filter_In in Hr' as [Hr' Hng]. apply negb_true_iff in Hng.
    apply not_null_detach; [done| |by apply Hd1].
    unfold detach_ok in Hdet. rewrite forallb_forall in Hdet.
    specialize (Hdet m' Hm'). rewrite forallb_forall in Hdet.
    specialize (Hdet r' Hr'). by rewrite Hng in Hdet.
  - rewrite forallb_forall in *. intros cols Hcols.
    apply pairwise_distinct_map_filter; [|by apply Hd2].
    intros a b. apply collide_detach.
Qed.

Lemma reachable_constraints d : reachable d → constraints_hold d = true.
Proof.
  induction 1; eauto using constraints_empty, constraints_insert, constraints_delete.
Qed.

Lemma reachable_not_null d m r c :
  reachable d → In m registry → In r (table d (tablename m)) → In c (columns m) →
  is_nullable c = false → get r (col_name c) ≠ VNull.
Proof.
  intros Hd Hm Hr Hc Hn. apply reachable_constraints in Hd.
  unfold constraints_hold in Hd. rewrite forallb_forall in Hd. specialize (Hd m Hm).
  unfold table_ok in Hd. apply andb_true_iff in Hd as [Hd _].
  rewrite forallb_forall in Hd. specialize (Hd r Hr).
  unfold not_null_ok in Hd. rewrite forallb_forall in Hd. specialize (Hd c Hc).
  rewrite Hn in Hd. simpl in Hd. by destruct (get r (col_name c)).
Qed.

Lemma collide_true cols a b :
  cols ≠ [] →
  (∀ c, In c cols → get a c = get b c ∧ get a c ≠ VNull) → collide cols a b = true.
Proof.
  intros Hne H. unfold collide. destruct cols as [|c0 cols]; [done|].
  apply forallb_forall. intros c Hc. apply sql_eqb_true. by apply H.
Qed.

Lemma reachable_unique d m cols i j a b :
  reachable d → In m registry → In cols (primary_key m :: unique_sets m) → cols ≠ [] →
  table d (tablename m) !! i = Some a → table d (tablename m) !! j = Some b →
  (∀ c, In c cols → get a c = get b c ∧ get a c ≠ VNull) → i = j.
Proof.
  intros Hd Hm Hcols Hne Hi Hj Heq. apply reachable_constraints in Hd.
  unfold constraints_hold in Hd. rewrite forallb_forall in Hd. specialize (Hd m Hm).
  unfold table_ok in Hd. apply andb_true_iff in Hd as [_ Hd].
  rewrite forallb_forall in Hd. specialize (Hd cols Hcols).
  eapply pairwise_distinct_lookup; eauto using collide_true.
Qed.

Lemma insert_rejects_collision m now r d cols p :
  In cols (primary_key m :: unique_sets m) →
  In p (table d (tablename m)) →
  collide cols (fill m now (sequence d (tablename m) + 1) r) p = true →
  ∃ e, insert m now r d = Raise e.
Proof.
  intros Hcols Hp Hc.
  assert (unique_ok m (table d (tablename m))
                    (fill m now (sequence d (tablename m) + 1) r) = false) as Hu.
  { unfold unique_ok. apply not_true_is_false. rewrite forallb_forall. intros H.
    specialize (H cols Hcols). apply negb_true_iff in H.
    assert (existsb (collide cols (fill m now (sequence d (tablename m) + 1) r))
                    (table d (tablename m)) = true); [|congruence].
    apply existsb_exists. eauto. }
  unfold insert. cbv zeta. rewrite Hu. cbn [negb].
  repeat match goal with
         | |- ∃ e, (if negb ?b then _ else _) = _ =>
             destruct b; cbn [negb]; [|by eexists]
         end.
  by eexists.
Qed.

Lemma rejected_after d (res : result db) : (∃ e, res = Raise e) → after d res = d.
Proof. by intros [e ->]. Qed.


(** C4. In every store the classes can produce, the shopping cart holds
    at most one row per (user_id, product_id); an INSERT of a cart row
    with the user_id and product_id of a row already there is rejected,
    and the store is as before. *)
Theorem cart_one_row_per_user_product :
  (∀ d i j a b, reachable d →
     table d "shopping_cart" !! i = Some a → table d "shopping_cart" !! j = Some b →
     get a "user_id" = get b "user_id" → get a "product_id" = get b "product_id" → i = j)
  ∧ (∀ d now r p, reachable d → In p (table d "shopping_cart") →
       get r "user_id" = get p "user_id" → get r "product_id" = get p "product_id" →
       (∃ e, insert ShoppingCart now r d = Raise e)
       ∧ after d (insert ShoppingCart now r d) = d).
Proof.
  assert (∀ d p, reachable d → In p (table d "shopping_cart") →
                 get p "user_id" ≠ VNull ∧ get p "product_id" ≠ VNull) as Hnn.
  { intros d p Hd Hp. split.
    - apply (reachable_not_null d ShoppingCart p user_id_col); simpl; auto 10.
    - apply (reachable_not_null d ShoppingCart p product_id_col); simpl; auto 10. }
  split.
  - intros d i j a b Hd Hi Hj Hu Hp.
    apply (reachable_unique d ShoppingCart ["user_id"; "product_id"] i j a b);
      try done; [simpl; auto 10 | simpl; auto 10 |].
    assert (In a (table d "shopping_cart")) as Ha.
    { apply list_elem_of_In. by eapply list_elem_of_lookup_2. }
    destruct (Hnn d a Hd Ha). intros c [<-|[<-|[]]]; auto.
  - intros d now r p Hd Hp Hu Hpr.
    assert (∃ e, insert ShoppingCart now r d = Raise e) as Hrej.
    { apply (insert_rejects_collision _ _ _ _ ["user_id"; "product_id"] p);
        [simpl; auto 10 | done |].
      destruct (Hnn d p Hd Hp) as [H1 H2].
      apply collide_true; [done|]. intros c [<-|[<-|[]]].
      - rewrite (fill_keeps ShoppingCart _ _ _ user_id_col); simpl; auto 10.
        split; congruence.
      - rewrite (fill_keeps ShoppingCart _ _ _ product_id_col); simpl; auto 10.
        split; congruence. }
    split; [done | by apply rejected_after].
Qed.

Lemma reachable_run_inserts rows d :
  reachable d → Forall (fun x => In x.1 registry) rows → reachable (run_inserts rows d).
Proof.
  unfold run_inserts. revert d.
  induction rows as [|x rows IH]; simpl; intros d Hd Hrows; [done|].
  inversion Hrows as [|? ? Hx Hrest]; subst. apply IH; [|done].
  destruct (insert x.1 0 x.2 d) as [d1|e] eqn:E; simpl.
  - exact (reach_insert x.1 0 x.2 d d1 Hx Hd E).
  - exact Hd.
Qed.

Lemma example_rows_registered : Forall (fun x => In x.1 registry) example_rows.
Proof.
  unfold example_rows. repeat (constructor; [simpl; auto 20|]). constructor.
Qed.

Lemma example_db_reachable : reachable example_db.
Proof.
  apply reachable_run_inserts; [constructor | apply example_rows_registered].
Qed.

Lemma head_default_In (l : list row) :
  Nat.eqb (length l) 0 = false → In (default ∅ (head l)) l.
Proof. destruct l; simpl; [discriminate | auto]. Qed.

Lemma cart_one_row_per_user_product_witness :
  (∃ e, insert ShoppingCart 0 {[ "user_id" := VInt 1; "product_id" := VInt 1;
                                 "quantity" := VInt 3 ]} example_db = Raise e)
  ∧ after example_db
          (insert ShoppingCart 0 {[ "user_id" := VInt 1; "product_id" := VInt 1;
                                    "quantity" := VInt 3 ]} example_db) = example_db.
Proof.
  apply (proj2 cart_one_row_per_user_product example_db 0 _ example_cart_row).
  - apply example_db_reachable.
  - apply head_default_In. vm_compute. reflexivity.
  - vm_compute. reflexivity.
  - vm_compute. reflexivity.
Defined.

(** C6. In every store the classes can produce, no two products share a
    sku and no two share a slug; an INSERT of a product whose sku or slug
    is that of a product already there is rejected, and the store is as
    before. *)
Theorem product_sku_slug_unique :
  (∀ d i j a b, reachable d →
     table d "products" !! i = Some a → table d "products" !! j = Some b →
     get a "sku" = get b "sku" ∨ get a "slug" = get b "slug" → i = j)
  ∧ (∀ d now r p, reachable d → In p (table d "products") →
       get r "sku" = get p "sku" ∨ get r "slug" = get p "slug" →
       (∃ e, insert Product now r d = Raise e)
       ∧ after d (insert Product now r d) = d).
Proof.
  assert (∀ d p, reachable d → In p (table d "products") →
                 get p "sku" ≠ VNull ∧ get p "slug" ≠ VNull) as Hnn.
  { intros d p Hd Hp. split.
    - apply (reachable_not_null d Product p sku_col); simpl; auto 20.
    - apply (reachable_not_null d Product p slug_col); simpl; auto 20. }
  split.
  - intros d i j a b Hd Hi Hj Heq.
    assert (In a (table d "products")) as Ha.
    { apply list_elem_of_In. by eapply list_elem_of_lookup_2. }
    destruct (Hnn d a Hd Ha) as [H1 H2].
    destruct Heq as [Heq|Heq].
    + apply (reachable_unique d Product ["sku"] i j a b);
        try done; [simpl; auto 10 | simpl; auto 10 |].
      intros c [<-|[]]; auto.
    + apply (reachable_unique d Product ["slug"] i j a b);
        try done; [simpl; auto 10 | simpl; auto 10 |].
      intros c [<-|[]]; auto.
  - intros d now r p Hd Hp Heq.
    assert (∃ e, insert Product now r d = Raise e) as Hrej.
    { destruct (Hnn d p Hd Hp) as [H1 H2]. destruct Heq as [Heq|Heq].
      - apply (insert_rejects_collision _ _ _ _ ["sku"] p);
          [simpl; auto 10 | done |].
        apply collide_true; [done|]. intros c [<-|[]].
        rewrite (fill_keeps Product _ _ _ sku_col); simpl; auto 20.
        split; congruence.
      - apply (insert_rejects_collision _ _ _ _ ["slug"] p);
          [simpl; auto 10 | done |].
        apply collide_true; [done|]. intros c [<-|[]].
        rewrite (fill_keeps Product _ _ _ slug_col); simpl; auto 20.
        split; congruence. }
    split; [done | by apply rejected_after].
Qed.

Lemma product_sku_slug_unique_witness :
  (∃ e, insert Product 0 {[ "sku" := VStr "SKU-001"; "name" := VStr "Q";
                            "price" := VNum 500; "slug" := VStr "q" ]} example_db
        = Raise e)
  ∧ after example_db
          (insert Product 0 {[ "sku" := VStr "SKU-001"; "name" := VStr "Q";
                               "price" := VNum 500; "slug" := VStr "q" ]} example_db)
    = example_db.
Proof.
  apply (proj2 product_sku_slug_unique example_db 0 _ example_product).
  - apply example_db_reachable.
  - apply head_default_In. vm_compute. reflexivity.
  - left. vm_compute. reflexivity.
Defined.


Lemma autoincrement_id m :
  In m registry → tablename m ≠ "products_categories" →
  primary_key m = ["id"] ∧ autoincrement_column m = Some id_column
  ∧ In id_column (columns m).
Proof.
  intros H Hne. registry_cases H;
    first [ by exfalso; apply Hne | repeat split; try reflexivity; simpl; auto ].
Qed.

(** C7. Every mapped class but the product-category association has the
    single primary key column [id], an autoincrement Integer: an INSERT
    that gives no id stores the row under the next sequence value, which
    no row of the table carries.  The association class has no [id]
    column; its primary key is (product_id, category_id), its two foreign
    keys, so no store holds a pair twice and an INSERT repeating a pair is
    rejected. *)
Theorem surrogate_key_except_association :
  (∀ m, In m registry → tablename m ≠ "products_categories" →
        primary_key m = ["id"] ∧ autoincrement_column m = Some id_column
        ∧ col_type id_column = Integer)
  ∧ (primary_key ProductCategory = ["product_id"; "category_id"]
     ∧ fk_columns_to ProductCategory "products" = [("product_id", "id")]
     ∧ fk_columns_to ProductCategory "categories" = [("category_id", "id")]
     ∧ ¬ In "id" (column_names ProductCategory)
     ∧ autoincrement_column ProductCategory = None)
  ∧ (∀ m now r d d', In m registry → tablename m ≠ "products_categories" →
        r !! "id" = None → insert m now r d = Ok d' →
        ∃ r1, table d' (tablename m) = (table d (tablename m) ++ [r1])%list
              ∧ get r1 "id" = VInt (sequence d (tablename m) + 1)
              ∧ ∀ r0, In r0 (table d (tablename m)) → get r0 "id" ≠ get r1 "id")
  ∧ (∀ d i j a b, reachable d →
        table d "products_categories" !! i = Some a →
        table d "products_categories" !! j = Some b →
        get a "product_id" = get b "product_id" →
        get a "category_id" = get b "category_id" → i = j)
  ∧ (∀ d now r p, reachable d → In p (table d "products_categories") →
        get r "product_id" = get p "product_id" →
        get r "category_id" = get p "category_id" →
        ∃ e, insert ProductCategory now r d = Raise e).
Proof.
  set (pc_product := mapped_column "product_id" false Integer
                       [ForeignKey "products" "id"; Nullable false; PrimaryKey]).
  set (pc_category := mapped_column "category_id" false Integer
                        [ForeignKey "categories" "id"; Nullable false; PrimaryKey]).
  assert (In ProductCategory registry) as Hpc by (simpl; auto 20).
  assert (∀ d p, reachable d → In p (table d "products_categories") →
                 get p "product_id" ≠ VNull ∧ get p "category_id" ≠ VNull) as Hnn.
  { intros d p Hd Hp. split.
    - apply (reachable_not_null d ProductCategory p pc_product); simpl; auto.
    - apply (reachable_not_null d ProductCategory p pc_category); simpl; auto. }
  split; [|split; [|split; [|split]]].
  - intros m Hm Hne. destruct (autoincrement_id m Hm Hne) as (H1 & H2 & _). auto.
  - repeat split; try reflexivity. simpl. intuition discriminate.
  - intros m now r d d' Hm Hne Hid Hins.
    destruct (autoincrement_id m Hm Hne) as (Hpk & Hauto & Hin).
    apply insert_inv in Hins as (_ & Hu & _ & _ & _ & Ht).
    set (r1 := fill m now (sequence d (tablename m) + 1) r) in *.
    assert (get r1 "id" = VInt (sequence d (tablename m) + 1)) as Hr1.
    { unfold get, r1. change "id" with (col_name id_column).
      rewrite fill_lookup by done. unfold fill_column, get. rewrite Hauto.
      change (col_name id_column) with "id". rewrite Hid. simpl.
      by rewrite lookup_insert_eq. }
    exists r1. split; [|split; [done|]].
    + destruct d' as [tabs seqs]. simpl in Ht. subst tabs.
      rewrite table_after_insert. by rewrite decide_True.
    + intros r0 Hr0 Heq. unfold unique_ok in Hu. rewrite forallb_forall in Hu.
      specialize (Hu ["id"] ltac:(rewrite Hpk; simpl; auto)).
      apply negb_true_iff in Hu.
      assert (existsb (collide ["id"] r1) (table d (tablename m)) = true); [|congruence].
      apply existsb_exists. exists r0. split; [done|].
      apply collide_true; [done|]. intros c [<-|[]]. rewrite Hr1. split; congruence.
  - intros d i j a b Hd Hi Hj Hp Hc.
    apply (reachable_unique d ProductCategory ["product_id"; "category_id"] i j a b);
      try done; [simpl; auto 10|].
    assert (In a (table d "products_categories")) as Ha.
    { apply list_elem_of_In. by eapply list_elem_of_lookup_2. }
    destruct (Hnn d a Hd Ha). intros c [<-|[<-|[]]]; auto.
  - intros d now r p Hd Hp Hpr Hca.
    apply (insert_rejects_collision _ _ _ _ ["product_id"; "category_id"] p);
      [simpl; auto 10 | done |].
    destruct (Hnn d p Hd Hp) as [H1 H2].
    apply collide_true; [done|]. intros c [<-|[<-|[]]].
    + rewrite (fill_keeps ProductCategory _ _ _ pc_product); simpl; auto.
      split; congruence.
    + rewrite (fill_keeps ProductCategory _ _ _ pc_category); simpl; auto.
      split; congruence.
Qed.

Lemma surrogate_key_except_association_witness :
  ∃ r1, table (after example_db
                     (insert Review 0 (review_row 1 1 4) example_db)) "reviews"
        = (table example_db "reviews" ++ [r1])%list
        ∧ get r1 "id" = VInt (sequence example_db "reviews" + 1)
        ∧ ∀ r0, In r0 (table example_db "reviews") → get r0 "id" ≠ get r1 "id".
Proof.
  apply (proj1 (proj2 (proj2 surrogate_key_except_association))
               Review 0 (review_row 1 1 4) example_db).
  - simpl. auto 20.
  - discriminate.
  - reflexivity.
  - destruct (insert Review 0 (review_row 1 1 4) example_db) as [d1|e] eqn:E.
    + reflexivity.
    + exfalso.
      assert (accepted (insert Review 0 (review_row 1 1 4) example_db) = true) as Ha
          by (vm_compute; reflexivity).
      rewrite E in Ha. discriminate.
Defined.

Lemma mem_In t l : mem t l = true ↔ In t l.
Proof.
  unfold mem. rewrite existsb_exists. split.
  - intros (x & Hx & E). apply String.eqb_eq in E. by subst.
  - intros H. exists t. split; [done | apply String.eqb_refl].
Qed.

Lemma find_model_in t m : find_model t = Some m → In m registry ∧ tablename m = t.
Proof.
  unfold find_model. intros H. apply find_some in H as [H1 H2].
  apply String.eqb_eq in H2. done.
Qed.

Lemma cascade_children_spec d x y :
  In y (cascade_children d x) ↔
  ∃ m rl tm, find_model x.1 = Some m ∧ In rl (relationships m)
             ∧ direction_of m rl = Some OneToMany
             ∧ find_model (rel_target rl) = Some tm
             ∧ cascades_delete rl = true
             ∧ y.1 = tablename tm
             ∧ In y.2 (table d (tablename tm))
             ∧ references tm (tablename m) x.2 y.2 = true.
Proof.
  unfold cascade_children. split.
  - destruct (find_model x.1) as [m|] eqn:Em; [|done].
    intros H. apply in_flat_map in H as (rl & Hrl & H).
    destruct (direction_of m rl) as [[| |]|] eqn:Ed; try done.
    destruct (find_model (rel_target rl)) as [tm|] eqn:Et; [|done].
    destruct (cascades_delete rl) eqn:Ec; [|done].
    apply in_map_iff in H as (r' & <- & Hr').
    unfold referencing in Hr'. apply filter_In in Hr' as [H1 H2].
    exists m, rl, tm. simpl. auto 10.
  - intros (m & rl & tm & Em & Hrl & Ed & Et & Ec & Ey & Hin & Href).
    rewrite Em. apply in_flat_map. exists rl. split; [done|].
    rewrite Ed, Et, Ec. apply in_map_iff. exists y.2. split.
    + destruct y; simpl in *; congruence.
    + unfold referencing. apply filter_In. done.
Qed.

Lemma cascade_children_table d x y :
  In y (cascade_children d x) → In y.1 (cascade_targets x.1).
Proof.
  intros H. apply cascade_children_spec in H
    as (m & rl & tm & Em & Hrl & Ed & Et & Ec & Ey & _ & _).
  unfold cascade_targets. rewrite Em. apply in_flat_map. exists rl. split; [done|].
  rewrite Ed, Et, Ec. simpl. auto.
Qed.

Lemma cascade_frontier n d F x : In x F → In x (cascade n d F).
Proof. destruct n; simpl; [done|]. intros H. apply in_app_iff. auto. Qed.

Lemma cascade_tables_incl n ts ts' :
  incl ts ts' → incl (cascade_tables n ts) (cascade_tables n ts').
Proof.
  revert ts ts'. induction n as [|n IH]; simpl; intros ts ts' H; [done|].
  apply incl_app_app; [done|]. apply IH.
  intros t Ht. apply in_flat_map in Ht as (s & Hs & Ht).
  apply in_flat_map. exists s. split; [by apply H | done].
Qed.

Lemma cascade_in_tables n d F x :
  In x (cascade n d F) → In x.1 (cascade_tables n (map fst F)).
Proof.
  revert F. induction n as [|n IH]; simpl; intros F H.
  - by apply in_map.
  - apply in_app_iff in H as [H|H]; apply in_app_iff; [left; by apply in_map|right].
    apply IH in H. eapply cascade_tables_incl; [|exact H].
    intros t Ht. apply in_map_iff in Ht as (y & <- & Hy).
    apply in_flat_map in Hy as (x0 & Hx0 & Hy).
    apply in_flat_map. exists x0.1. split; [by apply in_map|].
    by eapply cascade_children_table.
Qed.

Lemma cascade_tables_nil n : cascade_tables n [] = [].
Proof. induction n; simpl; auto. Qed.

(** Past the depth at which the schema's cascade dies out, the marked
    rows are closed under the cascade. *)
Lemma cascade_closed n d F x y :
  Nat.iter n (flat_map cascade_targets) (map fst F) = [] →
  In x (cascade n d F) → In y (cascade_children d x) → In y (cascade n d F).
Proof.
  revert F. induction n as [|n IH]; intros F Hdead Hx Hy.
  - simpl in *. destruct F; [done | discriminate].
  - simpl in Hx |- *. apply in_app_iff in Hx as [Hx|Hx]; apply in_app_iff; right.
    + apply cascade_frontier. apply in_flat_map. eauto.
    + apply IH; [|done|done].
      (* the frontier one level down is dead one step earlier *)
      rewrite Nat.iter_succ_r in Hdead.
      assert (incl (map fst (flat_map (cascade_children d) F))
                   (flat_map cascade_targets (map fst F))) as Hincl.
      { intros t Ht. apply in_map_iff in Ht as (z & <- & Hz).
        apply in_flat_map in Hz as (x0 & Hx0 & Hz).
        apply in_flat_map. exists x0.1. split; [by apply in_map|].
        by eapply cascade_children_table. }
      assert (∀ k l l', incl l l' → Nat.iter k (flat_map cascade_targets) l' = [] →
                        Nat.iter k (flat_map cascade_targets) l = []) as Hmono.
      { clear. induction k as [|k IHk]; intros l l' Hi H.
        - simpl in *. subst. destruct l as [|a l]; [done|]. destruct (Hi a); simpl; auto.
        - rewrite Nat.iter_succ_r in *. eapply IHk; [|exact H].
          intros t Ht. apply in_flat_map in Ht as (s & Hs & Ht).
          apply in_flat_map. eauto. }
      eapply Hmono; eauto.
Qed.

Lemma iter_targets_nil k : Nat.iter k (flat_map cascade_targets) [] = [].
Proof. induction k; simpl; [done|]. by rewrite IHk. Qed.

Lemma dead_later k j ts :
  Nat.iter k (flat_map cascade_targets) ts = [] →
  Nat.iter (j + k) (flat_map cascade_targets) ts = [].
Proof. intros H. rewrite Nat.iter_add, H. apply iter_targets_nil. Qed.

Lemma cascade_tables_dead k j ts :
  Nat.iter k (flat_map cascade_targets) ts = [] →
  incl (cascade_tables (k + j) ts) (cascade_tables k ts).
Proof.
  revert ts. induction k as [|k IH]; intros ts H.
  - simpl in H. subst. simpl. rewrite cascade_tables_nil. apply incl_refl.
  - simpl. apply incl_app_app; [apply incl_refl|]. apply IH.
    by rewrite Nat.iter_succ_r in H.
Qed.

Lemma fk_columns_to_in m c t k :
  In c (columns m) → foreign_key c = Some (t, k) → In (col_name c, k) (fk_columns_to m t).
Proof.
  intros Hc Hfk. unfold fk_columns_to.
  apply list_elem_of_In. apply list_elem_of_omap. exists c. split.
  - by apply list_elem_of_In.
  - by rewrite Hfk, String.eqb_refl.
Qed.

Lemma secondary_rows_none d x : has_secondary x.1 = false → secondary_rows d x = [].
Proof.
  unfold has_secondary, secondary_rows. destruct (find_model x.1) as [m|]; [|done].
  induction (relationships m) as [|rl l IH]; simpl; [done|].
  destruct (rel_secondary rl); simpl; [discriminate|]. auto.
Qed.

Section DeleteCascade.
Variables (m0 : model) (r0 : row) (d : db) (depth : nat).
Hypothesis Hr0 : In r0 (table d (tablename m0)).
Let R := cascade_tables depth [tablename m0].
Hypothesis Hdepth : (depth <= length registry)%nat.
Hypothesis Hdead : Nat.iter depth (flat_map cascade_targets) [tablename m0] = [].
Hypothesis Hsec : forallb (fun t => negb (has_secondary t)) R = true.
Hypothesis Hnullable : detach_nullable R = true.
Hypothesis Hcovered : fk_covered R = true.

Let marked := cascade (cascade_fuel d) d [(tablename m0, r0)].
Let gone := (marked ++ flat_map (secondary_rows d) marked)%list.

Lemma marked_root : In (tablename m0, r0) marked.
Proof. apply cascade_frontier. simpl. auto. Qed.

Lemma marked_tables x : In x marked → In x.1 R.
Proof.
  intros H. apply cascade_in_tables in H.
  change (map fst [(tablename m0, r0)]) with [tablename m0] in H.
  unfold cascade_fuel in H.
  replace (length registry + row_count d)%nat
    with (depth + (length registry - depth + row_count d))%nat in H by lia.
  by apply cascade_tables_dead in H.
Qed.

Lemma marked_closed x y : In x marked → In y (cascade_children d x) → In y marked.
Proof.
  apply cascade_closed.
  change (map fst [(tablename m0, r0)]) with [tablename m0]. unfold cascade_fuel.
  replace (length registry + row_count d)%nat
    with ((length registry - depth + row_count d) + depth)%nat by lia.
  by apply dead_later.
Qed.

Lemma gone_marked : gone = marked.
Proof.
  unfold gone. rewrite <- (app_nil_r marked) at 3. f_equal.
  assert (∀ l, (∀ x, In x l → In x.1 R) → flat_map (secondary_rows d) l = []) as H.
  { induction l as [|x l IH]; simpl; intros Hl; [done|].
    rewrite secondary_rows_none, IH; auto.
    rewrite forallb_forall in Hsec. apply negb_true_iff. apply Hsec. auto. }
  apply H. apply marked_tables.
Qed.

(** A row that references a marked row through a foreign key either is
    marked itself or has that key detached. *)
Lemma reference_marked_or_detached m c t k x r' :
  In m registry → In c (columns m) → foreign_key c = Some (t, k) →
  In x marked → x.1 = t → In r' (table d (tablename m)) →
  sql_eqb (get r' (col_name c)) (get x.2 k) = true →
  In (tablename m, r') marked ∨ In c (detached_columns gone m r').
Proof.
  intros Hm Hc Hfk Hx Ht Hr' Href.
  pose proof (marked_tables x Hx) as HR. rewrite Ht in HR.
  unfold fk_covered in Hcovered. rewrite forallb_forall in Hcovered.
  specialize (Hcovered m Hm). rewrite forallb_forall in Hcovered.
  specialize (Hcovered c Hc). rewrite Hfk in Hcovered.
  apply mem_In in HR. fold R in Hcovered. rewrite HR in Hcovered. simpl in Hcovered.
  destruct (mem (tablename m) (cascade_targets t)) eqn:Hct.
  - left. apply mem_In in Hct.
    apply (marked_closed x); [done|].
    unfold cascade_targets in Hct.
    destruct (find_model t) as [pm|] eqn:Epm; [|done].
    apply in_flat_map in Hct as (rl & Hrl & Hct).
    destruct (direction_of pm rl) as [[| |]|] eqn:Ed; try done.
    destruct (find_model (rel_target rl)) as [tm|] eqn:Et; [|done].
    destruct (cascades_delete rl) eqn:Ec; [|done].
    destruct Hct as [Hct|[]].
    assert (tm = m) as ->.
    { apply find_model_in in Et as [Htm _]. by apply registry_tablename_inj. }
    apply cascade_children_spec. exists pm, rl, m. rewrite Ht.
    apply find_model_in in Epm as Hpm. destruct Hpm as [_ Hpm].
    simpl. repeat split; auto.
    unfold references. apply existsb_exists. exists (col_name c, k). split.
    + rewrite Hpm. by apply fk_columns_to_in.
    + done.
  - right. simpl in Hcovered. unfold detached_columns. apply filter_In. split; [done|].
    rewrite Hfk, Hcovered. cbn [andb]. apply existsb_exists. exists x. split.
    + rewrite gone_marked. done.
    + rewrite Ht, String.eqb_refl. done.
Qed.

Lemma delete_detach_ok : detach_ok gone d = true.
Proof.
  unfold detach_ok. rewrite forallb_forall. intros m Hm.
  rewrite forallb_forall. intros r' Hr'. apply orb_true_iff. right.
  rewrite forallb_forall. intros c Hc.
  unfold detached_columns in Hc. apply filter_In in Hc as [Hc Hp].
  destruct (foreign_key c) as [[t k]|] eqn:Hfk; [|done].
  apply andb_true_iff in Hp as [Hdet Hex].
  apply existsb_exists in Hex as (x & Hx & Hxt).
  apply andb_true_iff in Hxt as [Hxt _]. apply String.eqb_eq in Hxt.
  rewrite gone_marked in Hx. apply marked_tables in Hx. rewrite Hxt in Hx.
  unfold detach_nullable in Hnullable. rewrite forallb_forall in Hnullable.
  specialize (Hnullable m Hm). rewrite forallb_forall in Hnullable.
  specialize (Hnullable c Hc). rewrite Hfk in Hnullable.
  apply mem_In in Hx. fold R in Hnullable. rewrite Hx, Hdet in Hnullable. done.
Qed.

(** No surviving row references a deleted row. *)
Lemma survivor_no_reference m c t k x r'' :
  In m registry → In c (columns m) → foreign_key c = Some (t, k) →
  In x gone → x.1 = t →
  In r'' (after_delete gone (tablename m) (table d (tablename m))) →
  sql_eqb (get r'' (col_name c)) (get x.2 k) = false.
Proof.
  intros Hm Hc Hfk Hx Ht Hr''. apply not_true_is_false. intros Href.
  unfold after_delete in Hr''. apply in_map_iff in Hr'' as (r' & <- & Hr').
  apply filter_In in Hr' as [Hr' Hng]. apply negb_true_iff in Hng.
  apply sql_eqb_true in Href as [Heq Hnn].
  destruct (detach_get gone (tablename m) r' (col_name c)) as [E|E]; [done|].
  rewrite gone_marked in Hx.
  destruct (reference_marked_or_detached m c t k x r') as [Hmk|Hdt]; auto.
  - apply sql_eqb_true. split; congruence.
  - (* marked: then it did not survive *)
    assert (is_gone gone (tablename m) r' = true); [|congruence].
    unfold is_gone. apply existsb_exists. exists (tablename m, r'). split.
    + by rewrite gone_marked.
    + simpl. rewrite String.eqb_refl. by apply bool_decide_eq_true.
  - (* detached: then the key reads NULL *)
    apply Hnn. unfold detach, get. rewrite find_model_registry by done.
    rewrite detach_lookup_in; [done|]. by apply in_map.
Qed.

Lemma delete_no_dangling s :
  no_dangling gone
    (mk_db (map_imap (fun t rows => Some (after_delete gone t rows)) (tables d)) s) = true.
Proof.
  unfold no_dangling. rewrite forallb_forall. intros m Hm.
  rewrite table_after_delete. rewrite forallb_forall. intros r'' Hr''.
  rewrite forallb_forall. intros c Hc.
  destruct (foreign_key c) as [[t k]|] eqn:Hfk; [|done].
  apply orb_true_iff. left. apply negb_true_iff. apply not_true_is_false.
  intros Hex. apply existsb_exists in Hex as (x & Hx & Hxt).
  apply andb_true_iff in Hxt as [Hxt Href]. apply String.eqb_eq in Hxt.
  rewrite (survivor_no_reference m c t k x r'') in Href; done.
Qed.

Lemma delete_succeeds :
  session_delete m0 r0 d
  = Ok (mk_db (map_imap (fun t rows => Some (after_delete gone t rows)) (tables d))
              (sequences d)).
Proof.
  unfold session_delete. cbv zeta.
  rewrite bool_decide_eq_true_2 by (by apply list_elem_of_In). cbn [negb].
  fold marked. fold gone. rewrite delete_detach_ok. cbn [negb].
  by rewrite delete_no_dangling.
Qed.
End DeleteCascade.

Lemma detach_no_foreign_key gone (m : model) (r : row) :
  In m registry →
  forallb (fun c => match foreign_key c with None => true | Some _ => false end)
          (columns m) = true →
  detach gone (tablename m) r = r.
Proof.
  intros Hm Hfk. unfold detach. rewrite find_model_registry by done.
  assert (detached_columns gone m r = []) as ->; [|done].
  unfold detached_columns.
  induction (columns m) as [|c l IH]; simpl in *; [done|].
  apply andb_true_iff in Hfk as [Hc Hl].
  destruct (foreign_key c); [done|]. by apply IH.
Qed.

(** C2. Deleting a user through the session goes through and takes along
    every order, review, payment, cart row, address and wishlist of that
    user, and the items of those wishlists: in the store after the delete
    no row of these tables references the user, no wishlist item
    references one of the user's wishlists, and the user's row is gone. *)
Theorem delete_user_cascades (d : db) (u : row) (uid : Z) :
  In u (table d "users") → get u "id" = VInt uid →
  ∃ d', session_delete User u d = Ok d'
        ∧ ¬ In u (table d' "users")
        ∧ (∀ t r, In t ["orders"; "reviews"; "payments"; "shopping_cart";
                         "user_address"; "wishlists"] →
                  In r (table d' t) → get r "user_id" ≠ VInt uid)
        ∧ (∀ w i, In w (table d "wishlists") → get w "user_id" = VInt uid →
                  get w "id" ≠ VNull →
                  In i (table d' "wishlist_items") → get i "wishlist_id" ≠ get w "id").
Proof.
  intros Hu Hid.
  assert (In User registry) as HU by (simpl; auto 20).
  pose proof (delete_succeeds User u d 3 Hu ltac:(simpl; lia) eq_refl eq_refl eq_refl
                              eq_refl) as Hdel.
  pose proof (gone_marked User u d 3 ltac:(simpl; lia) eq_refl eq_refl) as Hgone.
  pose proof (marked_root User u d) as Hroot.
  pose proof (marked_closed User u d 3 ltac:(simpl; lia) eq_refl) as Hclosed.
  pose proof (survivor_no_reference User u d 3 ltac:(simpl; lia) eq_refl eq_refl eq_refl)
    as Hsurv.
  set (marked := cascade (cascade_fuel d) d [(tablename User, u)]) in *.
  set (gone := (marked ++ flat_map (secondary_rows d) marked)%list) in *.
  eexists. split; [exact Hdel|]. rewrite !table_after_delete.
  split; [|split].
  - unfold after_delete. intros Hin. apply in_map_iff in Hin as (r' & E & Hr').
    apply filter_In in Hr' as [_ Hng].
    pose proof (detach_no_foreign_key gone User r' HU eq_refl) as Hdt.
    change (tablename User) with "users" in Hdt. rewrite Hdt in E. subst r'.
    apply negb_true_iff in Hng.
    assert (is_gone gone "users" u = true); [|congruence].
    unfold is_gone. apply existsb_exists. exists ("users", u). split.
    + rewrite Hgone. exact Hroot.
    + simpl. by apply bool_decide_eq_true.
  - intros t r Ht Hr Heq.
    assert (∃ m, In m registry ∧ tablename m = t ∧ In user_id_col (columns m))
      as (m & Hm & <- & Hc).
    { simpl in Ht.
      destruct Ht as [<-|[<-|[<-|[<-|[<-|[<-|[]]]]]]];
        [exists Order|exists Review|exists Payment|exists ShoppingCart
        |exists UserAddress|exists Wishlist]; simpl; auto 20. }
    rewrite table_after_delete in Hr.
    assert (sql_eqb (get r "user_id") (get ("users", u).2 "id") = false) as Hf.
    { apply (Hsurv m user_id_col "users" "id" ("users", u) r);
        [ exact Hm | exact Hc | reflexivity | rewrite Hgone; exact Hroot
        | reflexivity | exact Hr ]. }
    simpl in Hf. rewrite Heq, Hid in Hf. unfold sql_eqb in Hf. simpl in Hf.
    by rewrite bool_decide_eq_true_2 in Hf.
  - intros w i Hw Hwu Hwid Hi Heq.
    assert (In ("wishlists", w) marked) as Hwm.
    { apply (Hclosed ("users", u)); [exact Hroot|].
      apply cascade_children_spec.
      exists User, (rel "wishlist" "wishlists" cascade_all_delete_orphan), Wishlist.
      simpl. repeat split; auto 10.
      unfold references. simpl. rewrite Hwu, Hid. unfold sql_eqb. simpl.
      by rewrite bool_decide_eq_true_2. }
    assert (sql_eqb (get i "wishlist_id") (get ("wishlists", w).2 "id") = false) as Hf.
    { apply (Hsurv WishlistItem
                   (mapped_column "wishlist_id" false Integer
                                  [ForeignKey "wishlists" "id"; Nullable false])
                   "wishlists" "id" ("wishlists", w) i);
        [ cbn; auto 20 | cbn; auto 20 | reflexivity | rewrite Hgone; exact Hwm
        | reflexivity | exact Hi ]. }
    simpl in Hf. rewrite Heq in Hf.
    assert (sql_eqb (get w "id") (get w "id") = true); [|congruence].
    apply sql_eqb_true. done.
Qed.

Lemma delete_user_cascades_witness :
  ∃ d', session_delete User example_user example_db = Ok d'
        ∧ ¬ In example_user (table d' "users")
        ∧ (∀ t r, In t ["orders"; "reviews"; "payments"; "shopping_cart";
                         "user_address"; "wishlists"] →
                  In r (table d' t) → get r "user_id" ≠ VInt 1)
        ∧ (∀ w i, In w (table example_db "wishlists") → get w "user_id" = VInt 1 →
                  get w "id" ≠ VNull →
                  In i (table d' "wishlist_items") → get i "wishlist_id" ≠ get w "id").
Proof.
  apply (delete_user_cascades example_db example_user 1).
  - apply head_default_In. vm_compute. reflexivity.
  - vm_compute. reflexivity.
Defined.

End StoreProofs.


(** ** Part IV — properties of the seeding utility *)

Module FakeDataProofs.
Import FakeData.

Lemma bind_inv {A B} (c : M A) (k : A → M B) w r w' :
  bind c k w = (r, w') →
  (∃ a w1, c w = (Ok a, w1) ∧ k a w1 = (r, w'))
  ∨ (∃ e, c w = (Raise e, w') ∧ r = Raise e).
Proof.
  unfold bind. destruct (c w) as [[a|e] w1]; intros H.
  - left. eauto.
  - right. inversion H; subst. eauto.
Qed.

Lemma bind_ok {A B} (c : M A) (k : A → M B) w b w' :
  bind c k w = (Ok b, w') → ∃ a w1, c w = (Ok a, w1) ∧ k a w1 = (Ok b, w').
Proof.
  intros H. apply bind_inv in H as [H|(e & _ & H)]; [done | discriminate].
Qed.

Lemma quiet_ret {A} (a : A) : quiet (ret a).
Proof. by intros w. Qed.

Lemma quiet_raise {A} e : quiet (@raise A e).
Proof. by intros w. Qed.

Lemma quiet_bind {A B} (c : M A) (k : A → M B) :
  quiet c → (∀ a, quiet (k a)) → quiet (bind c k).
Proof.
  intros Hc Hk w. unfold bind. specialize (Hc w).
  destruct (c w) as [[a|e] w1]; simpl in *; [|done].
  specialize (Hk a w1). destruct Hc as (E1 & E2 & E3), Hk as (F1 & F2 & F3).
  repeat split; congruence.
Qed.

Lemma quiet_for_range {S} n (body : S → M S) s :
  (∀ s, quiet (body s)) → quiet (for_range n body s).
Proof.
  intros Hb. revert s. induction n as [|n IH]; intros s; simpl.
  - apply quiet_ret.
  - apply quiet_bind; auto.
Qed.

Lemma quiet_random_draw : quiet random_draw.
Proof. by intros w. Qed.
Lemma quiet_faker_call : quiet faker_call.
Proof. by intros w. Qed.
Lemma quiet_now : quiet now.
Proof. by intros w. Qed.
Lemma quiet_ask : quiet ask.
Proof. by intros w. Qed.
Lemma quiet_read_db : quiet read_db.
Proof. by intros w. Qed.
Lemma quiet_was_seen m v : quiet (was_seen m v).
Proof. by intros w. Qed.
Lemma quiet_mark_seen m v : quiet (mark_seen m v).
Proof. by intros w. Qed.

Ltac quiet_step :=
  match goal with
  | |- quiet (bind _ _) => apply quiet_bind; [|intros ?]
  | |- quiet (ret _) => apply quiet_ret
  | |- quiet (raise _) => apply quiet_raise
  | |- quiet (for_range _ _ _) => apply quiet_for_range; intros ?
  | |- quiet random_draw => apply quiet_random_draw
  | |- quiet faker_call => apply quiet_faker_call
  | |- quiet now => apply quiet_now
  | |- quiet ask => apply quiet_ask
  | |- quiet read_db => apply quiet_read_db
  | |- quiet (was_seen _ _) => apply quiet_was_seen
  | |- quiet (mark_seen _ _) => apply quiet_mark_seen
  | |- quiet (if ?b then _ else _) => destruct b
  | |- quiet (match ?x with _ => _ end) => destruct x
  | H : _ |- quiet _ => apply H
  end.
Ltac quiet_tac := repeat quiet_step.

Lemma quiet_randint a b : quiet (randint a b).
Proof. unfold randint. quiet_tac. Qed.
Lemma quiet_choice {A} (l : list A) : quiet (choice l).
Proof. unfold choice. quiet_tac. Qed.
Lemma quiet_uniform_cents a b : quiet (uniform_cents a b).
Proof. unfold uniform_cents. quiet_tac. Qed.
Lemma quiet_random_below p : quiet (random_below p).
Proof. unfold random_below. quiet_tac. Qed.
Lemma quiet_unique_attempts n m : quiet (unique_attempts n m).
Proof. induction n; simpl; quiet_tac. Qed.
Lemma quiet_faker_unique m : quiet (faker_unique m).
Proof. apply quiet_unique_attempts. Qed.
Lemma quiet_scalar_one {A} (l : list A) : quiet (scalar_one l).
Proof. unfold scalar_one. quiet_tac. Qed.
Lemma quiet_scalar_one_or_none {A} (l : list A) : quiet (scalar_one_or_none l).
Proof. unfold scalar_one_or_none. quiet_tac. Qed.
Lemma quiet_check_user_exists i : quiet (check_user_exists i).
Proof. unfold check_user_exists. quiet_tac. apply quiet_scalar_one_or_none. Qed.
Lemma quiet_probe_user_ids n a b : quiet (probe_user_ids n a b).
Proof.
  induction n; simpl; quiet_tac; auto using quiet_randint, quiet_check_user_exists.
Qed.
Lemma quiet_get_random_existing_user_id : quiet get_random_existing_user_id.
Proof.
  unfold get_random_existing_user_id, get_min_max_user_id. quiet_tac.
  apply quiet_probe_user_ids.
Qed.

Lemma where_id_in {A} i (rows : list (Z * A)) x :
  In x (where_id i rows) → x.1 = i ∧ In x rows.
Proof.
  unfold where_id. intros H. apply filter_In in H as [H1 H2].
  apply Z.eqb_eq in H2. done.
Qed.

Lemma scalar_one_or_none_some {A} (rows : list A) w x w' :
  scalar_one_or_none rows w = (Ok (Some x), w') → In x rows ∧ w' = w.
Proof.
  unfold scalar_one_or_none, ret, raise. destruct rows as [|a [|b l]]; intros H;
    inversion H; subst; simpl; auto.
Qed.

Lemma scalar_one_ok {A} (rows : list A) w x w' :
  scalar_one rows w = (Ok x, w') → In x rows ∧ w' = w.
Proof.
  unfold scalar_one, ret, raise. destruct rows as [|a [|b l]]; intros H;
    inversion H; subst; simpl; auto.
Qed.

Lemma check_user_exists_true i w w' :
  check_user_exists i w = (Ok true, w') → In i (map fst (db_users (db w))).
Proof.
  unfold check_user_exists. intros H.
  apply bind_ok in H as (d & w1 & Hd & H). inversion Hd; subst; clear Hd.
  apply bind_ok in H as (r & w2 & Hr & H). inversion H; subst; clear H.
  destruct r as [x|]; [|discriminate].
  apply scalar_one_or_none_some in Hr as [Hx _].
  apply where_id_in in Hx as [<- Hx]. by apply in_map.
Qed.

Lemma probe_user_ids_some n a b w uid w' :
  probe_user_ids n a b w = (Ok (Some uid), w') →
  In uid (map fst (db_users (db w))).
Proof.
  revert w. induction n as [|n IH]; simpl; intros w H.
  - inversion H.
  - apply bind_ok in H as (i & w1 & Hi & H).
    apply bind_ok in H as (found & w2 & Hf & H).
    destruct (quiet_randint a b w) as (_ & Hdb1 & _). rewrite Hi in Hdb1. simpl in Hdb1.
    destruct (quiet_check_user_exists i w1) as (_ & Hdb2 & _).
    rewrite Hf in Hdb2. simpl in Hdb2.
    destruct found.
    + inversion H; subst. apply check_user_exists_true in Hf. by rewrite <- Hdb1.
    + apply IH in H. by rewrite <- Hdb1, <- Hdb2.
Qed.

Lemma random_user_id_exists w uid w' :
  get_random_existing_user_id w = (Ok (Some uid), w') →
  In uid (map fst (db_users (db w))).
Proof.
  unfold get_random_existing_user_id, get_min_max_user_id. intros H.
  apply bind_ok in H as (mm & w1 & Hmm & H).
  apply bind_ok in Hmm as (d & w0 & Hd & Hmm).
  inversion Hd; subst; clear Hd. inversion Hmm; subst; clear Hmm.
  destruct (sql_min _) as [lo|]; [|inversion H].
  destruct (sql_max _) as [hi|]; [|inversion H].
  by apply probe_user_ids_some in H.
Qed.

(** C10. An id [get_random_existing_user_id] returns is the id of a row
    of the users table, which the call leaves as it is; on an empty users
    table it returns None; on a table with users 1 and 3 and draws that
    keep hitting 2 it returns None after 10000 draws. *)
Theorem random_existing_user_id_spec :
  (∀ w uid w', get_random_existing_user_id w = (Ok (Some uid), w') →
               In uid (map fst (db_users (db w))) ∧ db w' = db w)
  ∧ (∀ w, db_users (db w) = [] → (get_random_existing_user_id w).1 = Ok None)
  ∧ (db_users (db sparse_world) ≠ []
     ∧ (get_random_existing_user_id sparse_world).1 = Ok None
     ∧ draws (cur (get_random_existing_user_id sparse_world).2) = Z.to_nat 10000).
Proof.
  split; [|split].
  - intros w uid w' H. split; [by eapply random_user_id_exists|].
    destruct (quiet_get_random_existing_user_id w) as (_ & Hdb & _).
    by rewrite H in Hdb.
  - intros w Hw. unfold get_random_existing_user_id, get_min_max_user_id, bind, read_db.
    cbv beta iota. rewrite Hw. reflexivity.
  - split; [discriminate|]. vm_compute. split; reflexivity.
Qed.

(** *** Orders *)
Create HintDb quiet.
#[local] Hint Resolve quiet_randint quiet_choice quiet_uniform_cents quiet_random_below
  quiet_faker_unique quiet_scalar_one quiet_scalar_one_or_none quiet_check_user_exists
  quiet_get_random_existing_user_id quiet_ret quiet_raise quiet_random_draw quiet_faker_call
  quiet_now quiet_ask quiet_read_db : quiet.

Lemma quiet_db {A} (c : M A) w r w' : quiet c → c w = (r, w') → db w' = db w.
Proof. intros Hq H. destruct (Hq w) as (_ & Hdb & _). by rewrite H in Hdb. Qed.

Lemma quiet_env {A} (c : M A) w r w' : quiet c → c w = (r, w') → env w' = env w.
Proof. intros Hq H. destruct (Hq w) as (He & _ & _). by rewrite H in He. Qed.

Lemma randint_range a b w n w' : randint a b w = (Ok n, w') → a <= n <= b.
Proof.
  unfold randint. destruct (b <? a) eqn:E; [discriminate|].
  apply Z.ltb_ge in E. intros H.
  apply bind_ok in H as (k & w1 & _ & H). inversion H; subst.
  pose proof (Z.mod_pos_bound (Z.of_nat k) (b - a + 1) ltac:(lia)). lia.
Qed.

Lemma quiet_fake_order_item ids items : quiet (fake_order_item ids items).
Proof. unfold fake_order_item. quiet_tac; auto with quiet. Qed.

Lemma fake_order_item_spec ids items w items' w' :
  fake_order_item ids items w = (Ok items', w') →
  ∃ it, items' = (items ++ [it])%list ∧ item_priced (db w) it.
Proof.
  unfold fake_order_item. intros H.
  apply bind_ok in H as (pid & w1 & Hpid & H).
  apply quiet_db in Hpid as Hdb1; [|auto with quiet].
  apply bind_ok in H as (d & w2 & Hd & H). inversion Hd; subst; clear Hd.
  apply bind_ok in H as (p & w3 & Hp & H).
  apply bind_ok in H as (q & w4 & Hq & H). inversion H; subst; clear H.
  apply scalar_one_ok in Hp as [Hp _]. apply where_id_in in Hp as [Hp1 Hp2].
  eexists. split; [reflexivity|]. exists p.2. simpl. split; [|done].
  rewrite <- Hdb1. destruct p as [i p]. simpl in *. by subst.
Qed.

Lemma order_items_loop n ids items w items' w' :
  for_range n (fake_order_item ids) items w = (Ok items', w') →
  length items' = (length items + n)%nat
  ∧ (Forall (item_priced (db w)) items → Forall (item_priced (db w)) items').
Proof.
  revert items w. induction n as [|n IH]; simpl; intros items w H.
  - inversion H; subst. split; [lia | done].
  - apply bind_ok in H as (items1 & w1 & H1 & H).
    apply quiet_db in H1 as Hdb; [|apply quiet_fake_order_item].
    apply fake_order_item_spec in H1 as (it & -> & Hit).
    apply IH in H as [Hlen Hall]. rewrite Hdb in Hall. split.
    + rewrite Hlen, length_app. simpl. lia.
    + intros Hitems. apply Hall. apply Forall_app. split; [done|]. by constructor.
Qed.

Lemma sum_commuted (items : list OrderItem) :
  sum (map (fun item => item_unit_price item * item_quantity item) items)
  = sum (map (fun i => item_quantity i * item_unit_price i) items).
Proof.
  f_equal. apply map_ext. intros i. apply Z.mul_comm.
Qed.

Lemma quiet_order_step m added : quiet (order_step m added).
Proof.
  unfold order_step. quiet_tac; auto with quiet. apply quiet_fake_order_item.
Qed.

Lemma order_step_spec m added w added' w' :
  order_step m added w = (Ok added', w') →
  added' = added ∨ ∃ o, added' = (added ++ [o])%list ∧ good_order (db w) o.
Proof.
  unfold order_step. intros H.
  apply bind_ok in H as (uid & w1 & Huid & H).
  apply quiet_db in Huid as Hdb1; [|auto with quiet].
  destruct uid as [uid|]; [|inversion H; auto].
  apply random_user_id_exists in Huid.
  apply bind_ok in H as (d & w2 & Hd & H). inversion Hd; subst; clear Hd.
  apply bind_ok in H as (cu & w3 & Hcu & H).
  apply scalar_one_ok in Hcu as [Hcu ->]. apply where_id_in in Hcu as [Hcu1 Hcu2].
  destruct (addresses_of (db w2) cu.1) as [|fa rest] eqn:Eaddr; [inversion H; auto|].
  apply bind_ok in H as (st & w4 & Hst & H).
  apply quiet_db in Hst as Hdb4; [|auto with quiet].
  apply bind_ok in H as (e & w5 & He & H). inversion He; subst; clear He.
  apply bind_ok in H as (today & w6 & Htoday & H).
  apply quiet_db in Htoday as Hdb6; [|auto with quiet].
  apply bind_ok in H as (suffix & w7 & Hsuf & H).
  apply quiet_db in Hsuf as Hdb7; [|auto with quiet].
  destruct (map fst (db_products (db w2))) as [|pid pids] eqn:Eids; [inversion H; auto|].
  apply bind_ok in H as (n & w8 & Hn & H).
  apply quiet_db in Hn as Hdb8; [|auto with quiet].
  apply randint_range in Hn.
  apply bind_ok in H as (items & w9 & Hitems & H).
  apply order_items_loop in Hitems as [Hlen Hall].
  inversion H; subst; clear H. right. eexists. split; [reflexivity|].
  assert (db w8 = db w) as Hdb by congruence.
  rewrite Hdb in Hall. rewrite Hdb1 in *.
  unfold good_order, total_is_sum, well_addressed. simpl.
  split; [apply sum_commuted|]. split; [by apply Hall|]. split.
  - split; [done|]. exists fa.1, fa.2.
    assert (In fa (addresses_of (db w) cu.1)) as Hfa by (rewrite Eaddr; simpl; auto).
    unfold addresses_of in Hfa. apply filter_In in Hfa as [Hfa1 Hfa2].
    apply Z.eqb_eq in Hfa2. destruct fa. simpl in *. repeat split; auto; congruence.
  - intros ->. simpl in Hlen. lia.
Qed.

Lemma order_loop_spec n m added w added' w' :
  for_range n (order_step m) added w = (Ok added', w') →
  (length added' <= length added + n)%nat
  ∧ (Forall (good_order (db w)) added → Forall (good_order (db w)) added').
Proof.
  revert added w. induction n as [|n IH]; simpl; intros added w H.
  - inversion H; subst. split; [lia | done].
  - apply bind_ok in H as (added1 & w1 & H1 & H).
    apply quiet_db in H1 as Hdb; [|apply quiet_order_step].
    apply IH in H as [Hlen Hall]. rewrite Hdb in Hall.
    apply order_step_spec in H1 as [->|(o & -> & Ho)].
    + split; [lia | done].
    + split.
      * rewrite length_app in Hlen. simpl in Hlen. lia.
      * intros Hadded. apply Hall. apply Forall_app. split; [done|]. by constructor.
Qed.

Lemma persist_spec {A} (pending : list A) (rows : list (Z * A)) :
  ∃ new, persist rows pending = (rows ++ new)%list ∧ map snd new = pending.
Proof.
  revert rows. induction pending as [|x xs IH]; simpl; intros rows.
  - exists []. by rewrite app_nil_r.
  - destruct (IH (rows ++ [(next_id rows, x)])%list) as (new & -> & Hnew).
    exists ((next_id rows, x) :: new). rewrite <- app_assoc. simpl. by rewrite Hnew.
Qed.

(** What a run of [create_fake_orders] leaves in the database. *)
Lemma create_fake_orders_spec self how_many max_items w :
  let w' := (create_fake_orders self how_many max_items w).2 in
  ∃ created,
    db_orders (db w') = (db_orders (db w) ++ created)%list
    ∧ db_users (db w') = db_users (db w)
    ∧ db_products (db w') = db_products (db w)
    ∧ db_user_address (db w') = db_user_address (db w)
    ∧ (length created <= Z.to_nat (Z.min how_many (limitation self)))%nat
    ∧ Forall (fun o => good_order (db w) o.2) created.
Proof.
  unfold create_fake_orders. cbv zeta.
  set (n := Z.to_nat (Z.min how_many (limitation self))).
  set (m := Z.min max_items (limitation self)).
  unfold bind.
  destruct (for_range n (order_step m) [] w) as [[added|e] w1] eqn:Hloop.
  - apply quiet_db in Hloop as Hdb; [|apply quiet_for_range; intros; apply quiet_order_step].
    apply order_loop_spec in Hloop as [Hlen Hgood]. specialize (Hgood (List.Forall_nil _)).
    unfold commit_orders, attempt_commit.
    destruct (commit_fails (env w1) (commits (cur w1))); simpl.
    + exists []. rewrite app_nil_r, Hdb. repeat split; auto; simpl; lia.
    + destruct (persist_spec added (db_orders (db w1))) as (new & -> & Hnew).
      exists new. rewrite Hdb. repeat split; auto.
      * rewrite <- (length_map snd), Hnew. simpl in Hlen. lia.
      * apply List.Forall_forall. intros o Ho. rewrite List.Forall_forall in Hgood.
        apply Hgood. rewrite <- Hnew. by apply in_map.
  - apply quiet_db in Hloop as Hdb; [|apply quiet_for_range; intros; apply quiet_order_step].
    simpl. exists []. rewrite app_nil_r, Hdb. repeat split; auto; simpl; lia.
Qed.
















(** C1. Every order a run of [create_fake_orders] adds to the orders
    table stores as total_amount the sum over its items of
    quantity * unit_price, and each item's unit_price is the price of the
    product row its product_id names in the database of that run, which
    the run does not write to. *)
Theorem order_total_is_sum_of_items self how_many max_items w :
  ∃ created,
    db_orders (db (create_fake_orders self how_many max_items w).2)
    = (db_orders (db w) ++ created)%list
    ∧ db_products (db (create_fake_orders self how_many max_items w).2)
      = db_products (db w)
    ∧ Forall (fun o =>
                order_total_amount o.2
                = sum (map (fun i => item_quantity i * item_unit_price i) (order_items o.2))
                ∧ Forall (fun i => ∃ p, In (item_product_id i, p) (db_products (db w))
                                        ∧ item_unit_price i = product_price p)
                         (order_items o.2)) created.
Proof.
  destruct (create_fake_orders_spec self how_many max_items w)
    as (created & Ho & _ & Hp & _ & _ & Hgood).
  exists created. split; [done|]. split; [done|].
  eapply Forall_impl; [exact Hgood|]. intros o (Ht & Hi & _). auto.
Qed.

Lemma order_total_is_sum_of_items_witness :
  ∃ created,
    db_orders (db (create_fake_orders (init None) 5 3 orders_world).2)
    = (db_orders (db orders_world) ++ created)%list
    ∧ db_products (db (create_fake_orders (init None) 5 3 orders_world).2)
      = db_products (db orders_world)
    ∧ Forall (fun o =>
                order_total_amount o.2
                = sum (map (fun i => item_quantity i * item_unit_price i) (order_items o.2))
                ∧ Forall (fun i => ∃ p, In (item_product_id i, p)
                                           (db_products (db orders_world))
                                        ∧ item_unit_price i = product_price p)
                         (order_items o.2)) created.
Proof. exact (order_total_is_sum_of_items (init None) 5 3 orders_world). Defined.

(** C5. Given max_items_in_order >= 1, every order a run of
    [create_fake_orders] adds references a user of the users table, ships
    to an address row of that same user, and has at least one item. *)
Theorem created_orders_well_formed self how_many max_items w :
  1 <= max_items →
  ∃ created,
    db_orders (db (create_fake_orders self how_many max_items w).2)
    = (db_orders (db w) ++ created)%list
    ∧ Forall (fun o =>
                In (order_user_id o.2) (map fst (db_users (db w)))
                ∧ (∃ aid a, order_shipping_address_id o.2 = Some aid
                            ∧ In (aid, a) (db_user_address (db w))
                            ∧ address_user_id a = order_user_id o.2)
                ∧ order_items o.2 ≠ []) created.
Proof.
  intros _.
  destruct (create_fake_orders_spec self how_many max_items w)
    as (created & Ho & _ & _ & _ & _ & Hgood).
  exists created. split; [done|].
  eapply Forall_impl; [exact Hgood|]. intros o (_ & _ & [Hu Ha] & Hne). auto.
Qed.

Lemma created_orders_well_formed_witness :
  ∃ created,
    db_orders (db (create_fake_orders (init None) 5 3 orders_world).2)
    = (db_orders (db orders_world) ++ created)%list
    ∧ Forall (fun o =>
                In (order_user_id o.2) (map fst (db_users (db orders_world)))
                ∧ (∃ aid a, order_shipping_address_id o.2 = Some aid
                            ∧ In (aid, a) (db_user_address (db orders_world))
                            ∧ address_user_id a = order_user_id o.2)
                ∧ order_items o.2 ≠ []) created.
Proof. apply (created_orders_well_formed (init None) 5 3 orders_world). lia. Defined.

Example orders_world_run :
  map (fun o => (order_user_id o.2, order_shipping_address_id o.2,
                 order_total_amount o.2,
                 map (fun i => (item_product_id i, item_quantity i, item_unit_price i))
                     (order_items o.2)))
      (db_orders (db (create_fake_orders (init None) 5 3 orders_world).2))
  = [ (4, Some 2, 9750, [(2, 39, 250)]);
      (1, Some 1, 90000, [(1, 88, 1000); (1, 2, 1000)]);
      (1, Some 1, 44000, [(1, 44, 1000)]) ].
Proof. vm_compute. reflexivity. Qed.






End FakeDataProofs.
